(** * Academic Search URL Generator: query model to URL compiler

    A shallow embedding of [scripts/modules/search-generator.js]
    (class [SearchURLGenerator]) and of the part of
    [scripts/modules/ui-manager.js] (class [UIManager]) that owns and
    mutates the form data, together with the platform functions the
    generator calls ([String.prototype.trim], [Array.prototype.join],
    [encodeURIComponent], [URLSearchParams]).

    Conventions.
    - A JavaScript string is its sequence of UTF-16 code units, each a
      number below 65536, carried as [list N].
    - The numeric fields of the form ([startYear], [endYear],
      [resultsPerPage]) are integers, carried as [Z]. The arithmetic and
      the printing of the model are those of the Numbers for the safe
      integers ([Number.isSafeInteger], magnitude below 2^53); beyond
      them the model does not follow the code. NaN, which [parseInt]
      returns for an empty box, is not in the model.
    - A function that can throw returns a [result]: [Ok v] for a normal
      return, [Throw e] for an exception.
    - The DOM is the environment: what a handler reads from it is an
      argument of the handler, what it writes to it is not modelled. *)

From Stdlib Require Import List NArith ZArith Bool Lia String Ascii.
From Stdlib Require Import DecimalString DecimalPos DecimalZ.
Import ListNotations.

(* ================================================================== *)
(** * JavaScript values and platform functions                         *)
(* ================================================================== *)

Module JS.

Local Open Scope N_scope.

(** A string: its UTF-16 code units. *)
Definition jsstring := list N.

(** An ASCII literal as a JavaScript string. *)
Definition str (s : string) : jsstring :=
  List.map N_of_ascii (list_ascii_of_string s).

(** The code unit U+0022 (quotation mark). *)
Definition dquote : jsstring := [34].

(** [a === b] on strings. *)
Fixpoint streq (a b : jsstring) : bool :=
  match a, b with
  | [], [] => true
  | x :: a', y :: b' => (x =? y) && streq a' b'
  | _, _ => false
  end.

(** Truthiness of a string: every string but the empty one. *)
Definition truthy (s : jsstring) : bool :=
  match s with [] => false | _ :: _ => true end.

(** Exceptions the modelled code can throw. *)
Inductive exn : Type :=
| Error (message : jsstring)
| URIError.

Inductive result (A : Type) : Type :=
| Ok (v : A)
| Throw (e : exn).
Arguments Ok {A} v.
Arguments Throw {A} e.

Definition bind {A B} (r : result A) (k : A -> result B) : result B :=
  match r with
  | Ok v => k v
  | Throw e => Throw e
  end.

(** [Array.prototype.join] on an array of strings. *)
Fixpoint join (sep : jsstring) (l : list jsstring) : jsstring :=
  match l with
  | [] => []
  | [x] => x
  | x :: rest => x ++ sep ++ join sep rest
  end.

(** ** [String.prototype.trim] *)

(** WhiteSpace and LineTerminator code points of ECMAScript. *)
Definition isWhiteSpace (c : N) : bool :=
  existsb (N.eqb c)
    [9; 10; 11; 12; 13; 32; 160; 5760; 8232; 8233; 8239; 8287; 12288; 65279]
  || ((8192 <=? c) && (c <=? 8202)).

Fixpoint trimStart (s : jsstring) : jsstring :=
  match s with
  | [] => []
  | c :: s' => if isWhiteSpace c then trimStart s' else s
  end.

Fixpoint trimEnd (s : jsstring) : jsstring :=
  match s with
  | [] => []
  | c :: s' =>
      match trimEnd s' with
      | [] => if isWhiteSpace c then [] else [c]
      | r => c :: r
      end
  end.

Definition trim (s : jsstring) : jsstring := trimEnd (trimStart s).

(** ** Number to string, for integers *)

(** The decimal digits of an integer, with a minus sign when it is
    negative: what a Number prints as when it is an integer of a
    magnitude below 10^21. *)

Definition numberToString (z : Z) : jsstring :=
  str (NilZero.string_of_int (Z.to_int z)).

(** ** UTF-16 and UTF-8 *)

Definition isLeadSurrogate (c : N) : bool := (55296 <=? c) && (c <=? 56319).
Definition isTrailSurrogate (c : N) : bool := (56320 <=? c) && (c <=? 57343).

(** The code point of a surrogate pair. *)
Definition pairCodePoint (lead trail : N) : N :=
  (lead - 55296) * 1024 + (trail - 56320) + 65536.

(** The UTF-8 octets of a code point. *)
Definition utf8 (cp : N) : list N :=
  if cp <? 128 then [cp]
  else if cp <? 2048 then
    [N.lor 192 (N.shiftr cp 6); N.lor 128 (N.land cp 63)]
  else if cp <? 65536 then
    [N.lor 224 (N.shiftr cp 12); N.lor 128 (N.land (N.shiftr cp 6) 63);
     N.lor 128 (N.land cp 63)]
  else
    [N.lor 240 (N.shiftr cp 18); N.lor 128 (N.land (N.shiftr cp 12) 63);
     N.lor 128 (N.land (N.shiftr cp 6) 63); N.lor 128 (N.land cp 63)].

Definition hexDigit (n : N) : N :=
  nth (N.to_nat n) (str "0123456789ABCDEF") 48.

(** An octet as [%XX], upper-case hexadecimal. *)
Definition percentOctet (b : N) : jsstring :=
  [37; hexDigit (N.shiftr b 4); hexDigit (N.land b 15)].

Definition isAlpha (c : N) : bool :=
  ((65 <=? c) && (c <=? 90)) || ((97 <=? c) && (c <=? 122)).
Definition isDigit (c : N) : bool := (48 <=? c) && (c <=? 57).

(** ** [encodeURIComponent] *)

(** The characters [encodeURIComponent] leaves as they are:
    letters, digits and [- _ . ! ~ * ' ( )]. *)
Definition uriUnescaped (c : N) : bool :=
  isAlpha c || isDigit c || existsb (N.eqb c) (str "-_.!~*'()").

(** ECMAScript's Encode: an unescaped code unit is copied; any other
    code point is replaced by the percent-escapes of its UTF-8 octets;
    an unpaired surrogate throws a URIError. *)
Fixpoint encodeURIComponent (s : jsstring) : result jsstring :=
  match s with
  | [] => Ok []
  | c :: s' =>
      if uriUnescaped c then
        bind (encodeURIComponent s') (fun r => Ok (c :: r))
      else if isLeadSurrogate c then
        match s' with
        | d :: s'' =>
            if isTrailSurrogate d then
              bind (encodeURIComponent s'') (fun r =>
                Ok (flat_map percentOctet (utf8 (pairCodePoint c d)) ++ r))
            else Throw URIError
        | [] => Throw URIError
        end
      else if isTrailSurrogate c then Throw URIError
      else
        bind (encodeURIComponent s') (fun r =>
          Ok (flat_map percentOctet (utf8 c) ++ r))
  end.

(** ** [URLSearchParams] *)

(** Conversion to a USVString: every unpaired surrogate becomes U+FFFD. *)
Fixpoint toUSVString (s : jsstring) : jsstring :=
  match s with
  | [] => []
  | c :: s' =>
      if isLeadSurrogate c then
        match s' with
        | d :: s'' =>
            if isTrailSurrogate d then c :: d :: toUSVString s''
            else 65533 :: toUSVString s'
        | [] => [65533]
        end
      else if isTrailSurrogate c then 65533 :: toUSVString s'
      else c :: toUSVString s'
  end.

(** The UTF-8 encoding of a string (of a USVString, in every use). *)
Fixpoint utf8Encode (s : jsstring) : list N :=
  match s with
  | [] => []
  | c :: s' =>
      if isLeadSurrogate c then
        match s' with
        | d :: s'' =>
            if isTrailSurrogate d then utf8 (pairCodePoint c d) ++ utf8Encode s''
            else utf8 65533 ++ utf8Encode s'
        | [] => utf8 65533
        end
      else if isTrailSurrogate c then utf8 65533 ++ utf8Encode s'
      else utf8 c ++ utf8Encode s'
  end.

(** The application/x-www-form-urlencoded byte serializer: a space
    becomes [+]; letters, digits and [* - . _] are copied; every other
    octet is percent-escaped. *)
Definition urlencodedByte (b : N) : jsstring :=
  if b =? 32 then [43]
  else if isAlpha b || isDigit b || existsb (N.eqb b) (str "*-._") then [b]
  else percentOctet b.

Definition urlencoded (s : jsstring) : jsstring :=
  flat_map urlencodedByte (utf8Encode s).

(** The list of name-value pairs of a [URLSearchParams] object. *)
Definition URLSearchParams := list (jsstring * jsstring).

(** [new URLSearchParams(record)], the record given as its own
    properties in insertion order. *)
Definition newURLSearchParams (init : list (jsstring * jsstring))
  : URLSearchParams :=
  List.map (fun p => (toUSVString (fst p), toUSVString (snd p))) init.

(** [params.get(name)]: the first value of that name, or null. *)
Fixpoint get (name : jsstring) (params : URLSearchParams) : option jsstring :=
  match params with
  | [] => None
  | (k, v) :: rest => if streq k name then Some v else get name rest
  end.

(** [params.set(name, value)]: the first pair of that name takes the
    value and the others of that name are removed; with no such pair,
    the pair is appended. *)
Fixpoint setRaw (name value : jsstring) (params : URLSearchParams)
  : URLSearchParams :=
  match params with
  | [] => [(name, value)]
  | (k, v) :: rest =>
      if streq k name
      then (k, value) :: filter (fun p => negb (streq (fst p) name)) rest
      else (k, v) :: setRaw name value rest
  end.

Definition set (name value : jsstring) (params : URLSearchParams)
  : URLSearchParams :=
  setRaw (toUSVString name) (toUSVString value) params.

(** [params.toString()]. *)
Definition toString (params : URLSearchParams) : jsstring :=
  join (str "&")
    (List.map (fun p => urlencoded (fst p) ++ str "=" ++ urlencoded (snd p))
       params).

(** A possibly null string inside a template literal. *)
Definition templateString (v : option jsstring) : jsstring :=
  match v with
  | Some s => s
  | None => str "null"
  end.

(** ** [String.prototype.includes] *)

(** [s] starts with [w]. *)
Fixpoint startsWith (w s : jsstring) : bool :=
  match w, s with
  | [], _ => true
  | x :: w', y :: s' => (x =? y) && startsWith w' s'
  | _ :: _, [] => false
  end.

(** [s.includes(w)]: [w] occurs in [s] at some position. *)
Fixpoint includes (s w : jsstring) : bool :=
  startsWith w s
  || match s with
     | [] => false
     | _ :: s' => includes s' w
     end.

End JS.

Import JS.

(* ================================================================== *)
(** * The data the generator works on                                  *)
(* ================================================================== *)

(** One term group, an element of [formData.searchTerms]. The [id]
    property is present on the groups the UI creates and absent on the
    example groups of the generator. *)
Module TermGroup.
Record t : Type := mk {
  id : option jsstring;
  searchField : jsstring;
  operator : jsstring;
  terms : list jsstring
}.
Definition withTerms (ts : list jsstring) (group : t) : t :=
  mk (id group) (searchField group) (operator group) ts.
Definition withSearchField (f : jsstring) (group : t) : t :=
  mk (id group) f (operator group) (terms group).
End TermGroup.

(** The form data object of the UI, which is what the generator receives. *)
Module FormData.
Record t : Type := mk {
  database : jsstring;
  searchTerms : list TermGroup.t;
  startYear : Z;
  endYear : Z;
  searchField : jsstring;
  resultsPerPage : Z
}.
Definition withDatabase (d : jsstring) (fd : t) : t :=
  mk d (searchTerms fd) (startYear fd) (endYear fd) (searchField fd)
     (resultsPerPage fd).
Definition withSearchTerms (l : list TermGroup.t) (fd : t) : t :=
  mk (database fd) l (startYear fd) (endYear fd) (searchField fd)
     (resultsPerPage fd).
Definition withSearchField (f : jsstring) (fd : t) : t :=
  mk (database fd) (searchTerms fd) (startYear fd) (endYear fd) f
     (resultsPerPage fd).
Definition withResultsPerPage (n : Z) (fd : t) : t :=
  mk (database fd) (searchTerms fd) (startYear fd) (endYear fd)
     (searchField fd) n.
Definition withStartYear (y : Z) (fd : t) : t :=
  mk (database fd) (searchTerms fd) y (endYear fd) (searchField fd)
     (resultsPerPage fd).
Definition withEndYear (y : Z) (fd : t) : t :=
  mk (database fd) (searchTerms fd) (startYear fd) y (searchField fd)
     (resultsPerPage fd).
End FormData.

(** The object [validateFormData] returns. *)
Module Validation.
Record t : Type := mk {
  isValid : bool;
  errors : list jsstring;
  warnings : list jsstring
}.
End Validation.

(** An entry of a field option list. *)
Module FieldOption.
Record t : Type := mk { value : jsstring; label : jsstring }.
End FieldOption.

(* ================================================================== *)
(** * search-generator.js: class SearchURLGenerator                    *)
(* ================================================================== *)

Module SearchURLGenerator.

(** The state of a generator object. *)
Record t : Type := mk { currentDatabase : jsstring }.

Definition constructor : t := mk (str "ieee").

Definition setDatabase (database : jsstring) (this : t) : t := mk database.

(** [term => term.trim() !== ''] *)
Definition nonBlank (term : jsstring) : bool := negb (streq (trim term) []).

(** ** IEEE Xplore *)

(** [term => `("${group.searchField}":"${term.trim()}")`] *)
Definition ieeeClause (group : TermGroup.t) (term : jsstring) : jsstring :=
  str "(" ++ dquote ++ TermGroup.searchField group ++ dquote ++ str ":"
  ++ dquote ++ trim term ++ dquote ++ str ")".

(** The constant [termGroups] of [buildIEEEQueryText]. *)
Definition ieeeTermGroups (searchTerms : list TermGroup.t) : list jsstring :=
  filter (fun group => negb (streq group []))
    (List.map
       (fun group =>
          let terms :=
            join (str " " ++ TermGroup.operator group ++ str " ")
              (List.map (ieeeClause group)
                 (filter nonBlank (TermGroup.terms group))) in
          if truthy terms then str "(" ++ terms ++ str ")" else [])
       searchTerms).

(** The constant [fullQuery] of [buildIEEEQueryText]: the query before
    it is encoded. *)
Definition ieeeFullQuery (searchTerms : list TermGroup.t) : jsstring :=
  join (str " AND ") (ieeeTermGroups searchTerms).

Definition buildIEEEQueryText (searchTerms : list TermGroup.t)
  : result jsstring :=
  let termGroups := ieeeTermGroups searchTerms in
  if (List.length termGroups =? 0)%nat then Ok []
  else encodeURIComponent (join (str " AND ") termGroups).

Definition ieeeBaseURL : jsstring :=
  str "https://ieeexplore.ieee.org/search/searchresult.jsp".

(** The [URLSearchParams] object [generateIEEEURL] builds. *)
Definition ieeeParams (queryText : jsstring) (formData : FormData.t)
  : URLSearchParams :=
  newURLSearchParams
    [ (str "action", str "search");
      (str "newsearch", str "true");
      (str "matchBoolean", str "true");
      (str "queryText", queryText);
      (str "ranges",
        numberToString (FormData.startYear formData) ++ str "_"
        ++ numberToString (FormData.endYear formData) ++ str "_Year") ].

Definition generateIEEEURL (formData : FormData.t) : result jsstring :=
  bind (buildIEEEQueryText (FormData.searchTerms formData)) (fun queryText =>
  let params := ieeeParams queryText formData in
  Ok (ieeeBaseURL ++ str "?" ++ toString params)).

(** ** Scopus *)

(** [term => `${group.searchField}("${term.trim()}")`] *)
Definition scopusClause (group : TermGroup.t) (term : jsstring) : jsstring :=
  TermGroup.searchField group ++ str "(" ++ dquote ++ trim term ++ dquote
  ++ str ")".

(** The constant [termGroups] of [buildScopusQuery]. *)
Definition scopusTermGroups (searchTerms : list TermGroup.t) : list jsstring :=
  filter (fun group => negb (streq group []))
    (List.map
       (fun group =>
          let terms :=
            join (str " " ++ TermGroup.operator group ++ str " ")
              (List.map (scopusClause group)
                 (filter nonBlank (TermGroup.terms group))) in
          if truthy terms then str "(" ++ terms ++ str ")" else [])
       searchTerms).

(** The constant [fullQuery] of [buildScopusQuery]. *)
Definition scopusFullQuery (searchTerms : list TermGroup.t) : jsstring :=
  join (str " AND ") (scopusTermGroups searchTerms).

Definition buildScopusQuery (searchTerms : list TermGroup.t)
  : result jsstring :=
  let termGroups := scopusTermGroups searchTerms in
  if (List.length termGroups =? 0)%nat then Ok []
  else encodeURIComponent (join (str " AND ") termGroups).

Definition scopusBaseURL : jsstring :=
  str "https://www.scopus.com/results/results.uri".

(** The constant [yearClause] of [generateScopusURL]. The sum
    [endYear + 1] is the sum of the integers, which is the sum of the
    Numbers when [endYear] is a safe integer. *)
Definition yearClause (formData : FormData.t) : jsstring :=
  str "AND PUBYEAR > " ++ numberToString (FormData.startYear formData)
  ++ str " AND PUBYEAR < "
  ++ numberToString (FormData.endYear formData + 1).

(** The [URLSearchParams] object [generateScopusURL] builds first. *)
Definition scopusParams (searchQuery : jsstring) (formData : FormData.t)
  : URLSearchParams :=
  newURLSearchParams
    [ (str "sort", str "plf-f");
      (str "src", str "s");
      (str "sot", str "a");
      (str "sdt", str "a");
      (str "sl", str "211");
      (str "s", searchQuery);
      (str "origin", str "searchadvanced");
      (str "editSaveSearch", []);
      (str "limit", numberToString (FormData.resultsPerPage formData)) ].

Definition generateScopusURL (formData : FormData.t) : result jsstring :=
  bind (buildScopusQuery (FormData.searchTerms formData)) (fun searchQuery =>
  let params := scopusParams searchQuery formData in
  let currentS := get (str "s") params in
  bind (encodeURIComponent (yearClause formData)) (fun encodedYearClause =>
  let params :=
    set (str "s")
      (templateString currentS ++ str " " ++ encodedYearClause) params in
  Ok (scopusBaseURL ++ str "?" ++ toString params))).

(** ** Dispatch *)

Definition generateURL (this : t) (formData : FormData.t) : result jsstring :=
  if streq (currentDatabase this) (str "ieee") then generateIEEEURL formData
  else if streq (currentDatabase this) (str "scopus")
  then generateScopusURL formData
  else Throw (Error (str "Unsupported database type")).

(** ** Validation *)

Definition validateFormData (formData : FormData.t) : Validation.t :=
  let hasValidTerms :=
    existsb (fun group => existsb nonBlank (TermGroup.terms group))
      (FormData.searchTerms formData) in
  let errors :=
    (if negb hasValidTerms
     then [str "At least one search term is required"] else [])
    ++ (if (FormData.startYear formData >? FormData.endYear formData)%Z
        then [str "Start year must be less than or equal to end year"]
        else []) in
  let totalTerms :=
    fold_left
      (fun total group =>
         (total + List.length (filter nonBlank (TermGroup.terms group)))%nat)
      (FormData.searchTerms formData) 0%nat in
  let warnings :=
    (if (FormData.startYear formData <? 1900)%Z
        || (FormData.endYear formData >? 2030)%Z
     then [str "Year range should be between 1900 and 2030"] else [])
    ++ (if (20 <? totalTerms)%nat
        then [str "Large number of search terms may result in very long URLs"]
        else []) in
  Validation.mk (List.length errors =? 0)%nat errors warnings.

(** ** Constant data *)

Definition getExampleSearchTerms : list TermGroup.t :=
  [ TermGroup.mk None (str "All Metadata") (str "OR")
      [str "neural decoding"; str "brain decoding"];
    TermGroup.mk None (str "All Metadata") (str "OR")
      [str "visual cortex"; str "image reconstruction"] ].

Definition getFieldOptions (database : jsstring) : list FieldOption.t :=
  if streq database (str "ieee") then
    [ FieldOption.mk (str "All Metadata") (str "All Metadata");
      FieldOption.mk (str "Title") (str "Title");
      FieldOption.mk (str "Abstract") (str "Abstract");
      FieldOption.mk (str "Authors") (str "Authors");
      FieldOption.mk (str "Keywords") (str "Keywords") ]
  else if streq database (str "scopus") then
    [ FieldOption.mk (str "TITLE-ABS-KEY") (str "Title, Abstract & Keywords");
      FieldOption.mk (str "TITLE") (str "Title");
      FieldOption.mk (str "ABS") (str "Abstract");
      FieldOption.mk (str "AUTH") (str "Authors");
      FieldOption.mk (str "KEY") (str "Keywords") ]
  else [].

End SearchURLGenerator.

(* ================================================================== *)
(** * ui-manager.js: the form data owned by class UIManager            *)
(* ================================================================== *)

Module UIManager.

(** The fields of a [UIManager] that are not DOM elements. *)
Record t : Type := mk {
  searchGenerator : option SearchURLGenerator.t;
  formData : FormData.t;
  termGroupCounter : Z
}.

Definition withFormData (fd : FormData.t) (this : t) : t :=
  mk (searchGenerator this) fd (termGroupCounter this).

Definition setSearchGenerator (generator : SearchURLGenerator.t) (this : t)
  : t :=
  mk (Some generator) (formData this) (termGroupCounter this).

(** [addTermGroup]; its last statement, [updateURLPreview], only writes
    to the DOM. *)
Definition addTermGroup (this : t) : t :=
  let counter := (termGroupCounter this + 1)%Z in
  let groupId := str "termGroup" ++ numberToString counter in
  let termGroup :=
    TermGroup.mk (Some groupId) (FormData.searchField (formData this))
      (str "OR") [[]; []] in
  mk (searchGenerator this)
     (FormData.withSearchTerms
        (FormData.searchTerms (formData this) ++ [termGroup]) (formData this))
     counter.

Definition initializeDefaultState (this : t) : t :=
  let this := addTermGroup this in
  match FormData.searchTerms (formData this) with
  | firstGroup :: rest =>
      withFormData
        (FormData.withSearchTerms
           (TermGroup.mk (TermGroup.id firstGroup) (str "All Metadata")
              (TermGroup.operator firstGroup)
              [str "neural decoding"; str "brain decoding"] :: rest)
           (formData this))
        this
  | [] => this
  end.

Definition constructor : t :=
  initializeDefaultState
    (mk None
        (FormData.mk (str "ieee") [] 2020 2024 (str "All Metadata") 50) 0).

(** [updateFieldOptions]: of the loop over the options, the assignment
    to [formData.searchField]; the rest of the loop fills the select
    element. *)
Definition updateFieldOptions (database : jsstring) (this : t) : t :=
  match searchGenerator this with
  | None => this
  | Some _ =>
      fold_left
        (fun this option =>
           if streq (FieldOption.value option) (str "All Metadata")
              || streq (FieldOption.value option) (str "TITLE-ABS-KEY")
           then withFormData
                  (FormData.withSearchField (FieldOption.value option)
                     (formData this)) this
           else this)
        (SearchURLGenerator.getFieldOptions database) this
  end.

(** [handleDatabaseChange(e)], with [database] the
    [e.target.dataset.database] of the event. *)
Definition handleDatabaseChange (database : jsstring) (this : t) : t :=
  let this := withFormData (FormData.withDatabase database (formData this)) this in
  let this :=
    match searchGenerator this with
    | Some generator =>
        mk (Some (SearchURLGenerator.setDatabase database generator))
           (formData this) (termGroupCounter this)
    | None => this
    end in
  updateFieldOptions database this.

(** [handleFieldChange()], with [selected] the value of the field
    select element. *)
Definition handleFieldChange (selected : jsstring) (this : t) : t :=
  let fd := FormData.withSearchField selected (formData this) in
  withFormData
    (FormData.withSearchTerms
       (List.map (TermGroup.withSearchField (FormData.searchField fd))
          (FormData.searchTerms fd)) fd)
    this.

(** What [updateURLPreview] computes before it writes it to the DOM:
    nothing without a generator, the validation errors of an invalid
    form, and otherwise the outcome of [generateURL]. *)
Definition urlPreview (this : t)
  : option (list jsstring + result jsstring) :=
  match searchGenerator this with
  | None => None
  | Some generator =>
      let validation := SearchURLGenerator.validateFormData (formData this) in
      if negb (Validation.isValid validation)
      then Some (inl (Validation.errors validation))
      else Some (inr (SearchURLGenerator.generateURL generator (formData this)))
  end.

(** ** The handlers of the term groups *)

(** [g => g.id === groupId] *)
Definition hasId (groupId : jsstring) (group : TermGroup.t) : bool :=
  match TermGroup.id group with
  | Some id => streq id groupId
  | None => false
  end.

(** [searchTerms.findIndex(group => group.id === groupId)], with [None]
    for -1. *)
Fixpoint findIndex (groupId : jsstring) (l : list TermGroup.t) : option nat :=
  match l with
  | [] => None
  | group :: rest =>
      if hasId groupId group then Some O
      else option_map S (findIndex groupId rest)
  end.

(** [l.splice(index, 1)]: what is left in [l]. *)
Definition splice1 (index : nat) (l : list TermGroup.t) : list TermGroup.t :=
  firstn index l ++ skipn (S index) l.

(** [removeTermGroup(groupId)]. *)
Definition removeTermGroup (groupId : jsstring) (this : t) : t :=
  match findIndex groupId (FormData.searchTerms (formData this)) with
  | Some index =>
      withFormData
        (FormData.withSearchTerms
           (splice1 index (FormData.searchTerms (formData this)))
           (formData this))
        this
  | None => this
  end.

(** The array after the group that
    [searchTerms.find(g => g.id === groupId)] returns, the first one
    with that id, has been changed in place by [change]; the array
    itself when there is none. *)
Fixpoint changeFound (groupId : jsstring)
  (change : TermGroup.t -> TermGroup.t) (l : list TermGroup.t)
  : list TermGroup.t :=
  match l with
  | [] => []
  | group :: rest =>
      if hasId groupId group then change group :: rest
      else group :: changeFound groupId change rest
  end.

Definition withSearchTerms (l : list TermGroup.t) (this : t) : t :=
  withFormData (FormData.withSearchTerms l (formData this)) this.

(** [addTermToGroup(groupId)]: an empty term is pushed. *)
Definition addTermToGroup (groupId : jsstring) (this : t) : t :=
  withSearchTerms
    (changeFound groupId
       (fun group =>
          TermGroup.withTerms (TermGroup.terms group ++ [[]]) group)
       (FormData.searchTerms (formData this)))
    this.

(** [terms[termIndex] = value] under the guard
    [terms[termIndex] !== undefined]: nothing happens when the index is
    not the index of a term. *)
Fixpoint replaceTerm (index : nat) (value : jsstring) (ts : list jsstring)
  : list jsstring :=
  match ts, index with
  | [], _ => []
  | _ :: rest, O => value :: rest
  | term :: rest, S index' => term :: replaceTerm index' value rest
  end.

Definition setTerm (termIndex : Z) (value : jsstring) (ts : list jsstring)
  : list jsstring :=
  if ((0 <=? termIndex) && (termIndex <? Z.of_nat (List.length ts)))%Z
  then replaceTerm (Z.to_nat termIndex) value ts
  else ts.

(** [updateTerm(groupId, termIndex, value)], for an integer index. *)
Definition updateTerm (groupId : jsstring) (termIndex : Z) (value : jsstring)
  (this : t) : t :=
  withSearchTerms
    (changeFound groupId
       (fun group =>
          TermGroup.withTerms (setTerm termIndex value (TermGroup.terms group))
            group)
       (FormData.searchTerms (formData this)))
    this.

(** [updateOperator(groupId, operator)]. *)
Definition updateOperator (groupId operator : jsstring) (this : t) : t :=
  withSearchTerms
    (changeFound groupId
       (fun group =>
          TermGroup.mk (TermGroup.id group) (TermGroup.searchField group)
            operator (TermGroup.terms group))
       (FormData.searchTerms (formData this)))
    this.

(** ** The handlers of the other controls *)

(** [handleYearChange(type)], for a year input that holds an integer:
    [value] is the integer it parses to. (An empty input parses to NaN,
    which the model does not have.) Every [type] other than [start] is
    the end year. *)
Definition handleYearChange (type : jsstring) (value : Z) (this : t) : t :=
  if streq type (str "start")
  then withFormData (FormData.withStartYear value (formData this)) this
  else withFormData (FormData.withEndYear value (formData this)) this.

(** [handleYearSliderChange(type)], with [value] the integer the slider
    holds: the same assignments. *)
Definition handleYearSliderChange (type : jsstring) (value : Z) (this : t)
  : t :=
  if streq type (str "start")
  then withFormData (FormData.withStartYear value (formData this)) this
  else withFormData (FormData.withEndYear value (formData this)) this.

(** [handleResultsPerPageChange()], for a select whose value is an
    integer: [value] is the integer it parses to. *)
Definition handleResultsPerPageChange (value : Z) (this : t) : t :=
  withFormData (FormData.withResultsPerPage value (formData this)) this.

(** [clearForm()], with [firstOption] the value of the first option of
    the field select, if it has one. Without one, reading
    [options[0].value] throws before anything is assigned: [None]. *)
Definition clearForm (firstOption : option jsstring) (this : t) : option t :=
  match firstOption with
  | None => None
  | Some value =>
      Some (addTermGroup
              (mk (searchGenerator this)
                  (FormData.mk (FormData.database (formData this)) [] 2020
                     2024 value 50)
                  0))
  end.

(** ** The text of the URL preview, and its two buttons *)

(** The message of an exception; that of a URIError is the engine's. *)
Definition message (uriErrorMessage : jsstring) (e : exn) : jsstring :=
  match e with
  | Error m => m
  | URIError => uriErrorMessage
  end.

(** The text [updateURLPreview] writes into the preview, if it writes
    one. *)
Definition urlText (uriErrorMessage : jsstring) (this : t)
  : option jsstring :=
  match urlPreview this with
  | None => None
  | Some (inl errors) => Some (join (str ", ") errors)
  | Some (inr (Ok url)) => Some url
  | Some (inr (Throw error)) =>
      Some (str "Error generating URL: " ++ message uriErrorMessage error)
  end.

(** [!url || url.includes('Error') || url.includes('required')] *)
Definition noValidURL (url : jsstring) : bool :=
  negb (truthy url) || includes url (str "Error")
  || includes url (str "required").

(** What a button does with the text of the preview. *)
Inductive action : Type :=
| Notify (text : jsstring)
| WriteToClipboard (url : jsstring)
| OpenWindow (url : jsstring).

(** [copyURL()], with [url] the text of the preview. *)
Definition copyURL (url : jsstring) : action :=
  if noValidURL url then Notify (str "No valid URL to copy")
  else WriteToClipboard url.

(** [openURL()], with [url] the text of the preview. *)
Definition openURL (url : jsstring) : action :=
  if noValidURL url then Notify (str "No valid URL to open")
  else OpenWindow url.

(** ** Events *)

(** What the user can do to the form, every year and page size entered
    being an integer. *)
Inductive event : Type :=
| AddTermGroup
| RemoveTermGroup (groupId : jsstring)
| AddTermToGroup (groupId : jsstring)
| UpdateTerm (groupId : jsstring) (termIndex : Z) (value : jsstring)
| UpdateOperator (groupId operator : jsstring)
| HandleDatabaseChange (database : jsstring)
| HandleYearChange (type : jsstring) (value : Z)
| HandleYearSliderChange (type : jsstring) (value : Z)
| HandleFieldChange (selected : jsstring)
| HandleResultsPerPageChange (value : Z)
| ClearForm (firstOption : option jsstring).

(** The handler of an event; an exception in it leaves the fields as
    they were. *)
Definition handle (e : event) (this : t) : t :=
  match e with
  | AddTermGroup => addTermGroup this
  | RemoveTermGroup groupId => removeTermGroup groupId this
  | AddTermToGroup groupId => addTermToGroup groupId this
  | UpdateTerm groupId termIndex value =>
      updateTerm groupId termIndex value this
  | UpdateOperator groupId operator => updateOperator groupId operator this
  | HandleDatabaseChange database => handleDatabaseChange database this
  | HandleYearChange type value => handleYearChange type value this
  | HandleYearSliderChange type value =>
      handleYearSliderChange type value this
  | HandleFieldChange selected => handleFieldChange selected this
  | HandleResultsPerPageChange value => handleResultsPerPageChange value this
  | ClearForm firstOption =>
      match clearForm firstOption this with
      | Some this' => this'
      | None => this
      end
  end.

(** The fields after a sequence of events. *)
Definition run (events : list event) (this : t) : t :=
  fold_left (fun this e => handle e this) events this.

End UIManager.

(* ================================================================== *)
(** * The clause-building algorithm as the specification words it      *)
(* ================================================================== *)

Module Spec.

(** The atomic clause of a term, per target. *)
Definition ieeeAtom (field term : jsstring) : jsstring :=
  str "(" ++ dquote ++ field ++ dquote ++ str ":" ++ dquote ++ term
  ++ dquote ++ str ")".

Definition scopusAtom (field term : jsstring) : jsstring :=
  field ++ str "(" ++ dquote ++ term ++ dquote ++ str ")".

(** The terms of a group, trimmed, the blank ones dropped. *)
Definition remainingTerms (group : TermGroup.t) : list jsstring :=
  filter (fun term => negb (streq term []))
    (List.map trim (TermGroup.terms group)).

(** The clause of a group: none when no term remains; otherwise the
    atomic clauses of the remaining terms, joined with the group's own
    operator between spaces, in parentheses. *)
Definition groupClause (atom : jsstring -> jsstring -> jsstring)
  (group : TermGroup.t) : option jsstring :=
  match remainingTerms group with
  | [] => None
  | ts =>
      Some (str "(" ++
            join (str " " ++ TermGroup.operator group ++ str " ")
              (List.map (atom (TermGroup.searchField group)) ts)
            ++ str ")")
  end.

(** The clauses of the groups that have one, in group order. *)
Definition groupClauses (atom : jsstring -> jsstring -> jsstring)
  (groups : list TermGroup.t) : list jsstring :=
  flat_map
    (fun group =>
       match groupClause atom group with
       | Some clause => [clause]
       | None => []
       end)
    groups.

(** The query fragment: the group clauses joined with AND. *)
Definition fragment (atom : jsstring -> jsstring -> jsstring)
  (groups : list TermGroup.t) : jsstring :=
  join (str " AND ") (groupClauses atom groups).

End Spec.

(* ================================================================== *)
(** * Notions the statements use                                       *)
(* ================================================================== *)

(** ** Classes of characters *)

(** A code unit of the ASCII range. *)
Definition isAscii (c : N) : bool := (c <? 128)%N.

(** The characters the URL-encoded serializer copies. *)
Definition isUrlSafe (c : N) : bool :=
  isAlpha c || isDigit c || existsb (N.eqb c) (str "*-._").

(** The characters of a printed integer: digits and the minus sign. *)
Definition isNumberChar (c : N) : bool := isDigit c || (c =? 45)%N.

(** The characters a value of the generated query string is made of:
    letters, digits, [* - . _], [%] and [+]. *)
Definition isValueChar (c : N) : bool :=
  isAlpha c || isDigit c || existsb (N.eqb c) (str "*-._%+").

(** ** Safe integers *)

(** [Number.isSafeInteger]: an integer of a magnitude below 2^53. *)
Definition isSafeInteger (z : Z) : bool :=
  ((- (2 ^ 53 - 1) <=? z) && (z <=? 2 ^ 53 - 1))%Z.

(** The years and the page size of the form are safe integers. *)
Definition formNumbersSafe (fd : FormData.t) : bool :=
  isSafeInteger (FormData.startYear fd)
  && isSafeInteger (FormData.endYear fd)
  && isSafeInteger (FormData.resultsPerPage fd).

(** ** Well-formed strings *)

(** A string without unpaired surrogates
    ([String.prototype.isWellFormed]). *)
Fixpoint isWellFormed (s : jsstring) : bool :=
  match s with
  | [] => true
  | c :: s' =>
      if isLeadSurrogate c then
        match s' with
        | d :: s'' => isTrailSurrogate d && isWellFormed s''
        | [] => false
        end
      else negb (isTrailSurrogate c) && isWellFormed s'
  end.

(** Every string of a term group is well formed. *)
Definition groupWellFormed (group : TermGroup.t) : bool :=
  isWellFormed (TermGroup.searchField group)
  && isWellFormed (TermGroup.operator group)
  && forallb isWellFormed (TermGroup.terms group).

(** Every string the generator reads from the form data is well formed. *)
Definition formWellFormed (formData : FormData.t) : bool :=
  forallb groupWellFormed (FormData.searchTerms formData).

(** ** Parts of the two builders and of the two URLs *)

(** What the callback of [searchTerms.map] returns for one group in
    [buildIEEEQueryText] and [buildScopusQuery], for the atomic clause
    [clause] of the target. *)
Definition groupText (clause : TermGroup.t -> jsstring -> jsstring)
  (group : TermGroup.t) : jsstring :=
  let terms :=
    join (str " " ++ TermGroup.operator group ++ str " ")
      (List.map (clause group)
         (filter SearchURLGenerator.nonBlank (TermGroup.terms group))) in
  if truthy terms then str "(" ++ terms ++ str ")" else [].

(** The constant [termGroups] of the two builders, for the atomic
    clause [clause] of the target. *)
Definition termGroupsOf (clause : TermGroup.t -> jsstring -> jsstring)
  (searchTerms : list TermGroup.t) : list jsstring :=
  filter (fun group => negb (streq group []))
    (List.map (groupText clause) searchTerms).

(** The value of the parameter [ranges] of the IEEE URL. *)
Definition rangesValue (fd : FormData.t) : jsstring :=
  numberToString (FormData.startYear fd) ++ str "_"
  ++ numberToString (FormData.endYear fd) ++ str "_Year".

(** The year clause of the Scopus URL after [encodeURIComponent]. *)
Definition encodedYearClause (fd : FormData.t) : jsstring :=
  str "AND%20PUBYEAR%20%3E%20" ++ numberToString (FormData.startYear fd)
  ++ str "%20AND%20PUBYEAR%20%3C%20"
  ++ numberToString (FormData.endYear fd + 1).

(** A query string with exactly the parameters [names], in that order,
    each with a value made of the characters of [isValueChar]. *)
Definition isQueryString (names : list jsstring) (q : jsstring) : Prop :=
  exists values,
    List.length values = List.length names
    /\ Forall (fun v => forallb isValueChar v = true) values
    /\ q = join (str "&")
             (List.map (fun p => fst p ++ str "=" ++ snd p)
                (combine names values)).

Definition ieeeParameterNames : list jsstring :=
  [str "action"; str "newsearch"; str "matchBoolean"; str "queryText";
   str "ranges"].

Definition scopusParameterNames : list jsstring :=
  [str "sort"; str "src"; str "sot"; str "sdt"; str "sl"; str "s";
   str "origin"; str "editSaveSearch"; str "limit"].

(** ** Validation *)

(** The messages of [validateFormData]. *)
Definition errorNoTerms : jsstring :=
  str "At least one search term is required".
Definition errorYearOrder : jsstring :=
  str "Start year must be less than or equal to end year".
Definition warningYearRange : jsstring :=
  str "Year range should be between 1900 and 2030".
Definition warningManyTerms : jsstring :=
  str "Large number of search terms may result in very long URLs".

(** Some group has a term that is not blank once trimmed. *)
Definition hasContent (fd : FormData.t) : Prop :=
  exists group term,
    In group (FormData.searchTerms fd)
    /\ In term (TermGroup.terms group)
    /\ trim term <> [].

(** The non-blank terms of all groups. *)
Definition nonBlankTerms (fd : FormData.t) : list jsstring :=
  flat_map
    (fun group => filter SearchURLGenerator.nonBlank (TermGroup.terms group))
    (FormData.searchTerms fd).

(** ** Scenarios *)

(** The term group of the scenarios: two terms joined with OR. *)
Definition scenarioGroup (id : option jsstring) (field : jsstring)
  : TermGroup.t :=
  TermGroup.mk id field (str "OR")
    [str "neural decoding"; str "brain decoding"].

(** Scenario 1: an IEEE form with that group, years 2019 to 2026. *)
Definition scenario1 (id : option jsstring) (resultsPerPage : Z)
  : FormData.t :=
  FormData.mk (str "ieee") [scenarioGroup id (str "All Metadata")] 2019 2026
    (str "All Metadata") resultsPerPage.

(** Scenario 2: the same for Scopus. *)
Definition scenario2 (id : option jsstring) (resultsPerPage : Z)
  : FormData.t :=
  FormData.mk (str "scopus") [scenarioGroup id (str "TITLE-ABS-KEY")] 2019
    2026 (str "TITLE-ABS-KEY") resultsPerPage.

(** The two atomic clauses of scenario 1 joined with OR, as the
    specification writes them. *)
Definition scenario1Clauses : jsstring :=
  str "(" ++ dquote ++ str "All Metadata" ++ dquote ++ str ":" ++ dquote
  ++ str "neural decoding" ++ dquote ++ str ") OR (" ++ dquote
  ++ str "All Metadata" ++ dquote ++ str ":" ++ dquote
  ++ str "brain decoding" ++ dquote ++ str ")".

(** The UI once the application has attached a new generator to a new
    UI manager, as [init] does. *)
Definition uiAtStart : UIManager.t :=
  UIManager.setSearchGenerator SearchURLGenerator.constructor
    UIManager.constructor.

(** ** The state of the UI *)

(** The generator is attached and set to the database of the form. *)
Definition inSync (ui : UIManager.t) : Prop :=
  exists generator,
    UIManager.searchGenerator ui = Some generator
    /\ SearchURLGenerator.currentDatabase generator =
       FormData.database (UIManager.formData ui).

(** The id [addTermGroup] gives the group it creates when the counter
    becomes [k]. *)
Definition groupIdOf (k : Z) : jsstring := str "termGroup" ++ numberToString k.

(** The groups of [l] have pairwise different ids, each one given by
    [addTermGroup] at a counter value from 1 to [counter], and each
    group has at least two terms. *)
Definition wellNumbered (counter : Z) (l : list TermGroup.t) : Prop :=
  (0 <= counter)%Z
  /\ NoDup (List.map TermGroup.id l)
  /\ Forall
       (fun group =>
          (exists k, (1 <= k <= counter)%Z
                     /\ TermGroup.id group = Some (groupIdOf k))
          /\ (2 <= List.length (TermGroup.terms group))%nat)
       l.

Definition groupsWellNumbered (ui : UIManager.t) : Prop :=
  wellNumbered (UIManager.termGroupCounter ui)
    (FormData.searchTerms (UIManager.formData ui)).

(** The term groups [removeTermGroup(groupId)] leaves. *)
Definition removeFound (groupId : jsstring) (l : list TermGroup.t)
  : list TermGroup.t :=
  match UIManager.findIndex groupId l with
  | Some index => UIManager.splice1 index l
  | None => l
  end.

(** [w] occurs in [s]. *)
Definition occursIn (w s : jsstring) : Prop :=
  exists before after, s = before ++ w ++ after.

(* ================================================================== *)
(** * The platform functions on small inputs                           *)
(* ================================================================== *)

Section PlatformExamples.

Local Open Scope N_scope.

Example trim_spaces :
  trim (str "  brain decoding " ++ [160; 10]) = str "brain decoding".
Proof. reflexivity. Qed.

Example trim_blank : trim (str "  ") = [] /\ trim [] = [].
Proof. split; reflexivity. Qed.

Example join_three :
  join (str " OR ") [str "a"; str "b"; str "c"] = str "a OR b OR c"
  /\ join (str " OR ") [str "a"] = str "a"
  /\ join (str " OR ") [] = [].
Proof. repeat split. Qed.

Example numberToString_examples :
  numberToString 2019 = str "2019"
  /\ numberToString 0 = str "0"
  /\ numberToString (-44) = str "-44".
Proof. repeat split. Qed.

(** Reserved characters, a Latin-1 letter (U+00E9) and a character
    outside the basic plane (U+1F600, a surrogate pair). *)
Example encodeURIComponent_examples :
  encodeURIComponent (str "a b(c):" ++ dquote ++ [233; 55357; 56832]) =
  Ok (str "a%20b(c)%3A%22%C3%A9%F0%9F%98%80")
  /\ encodeURIComponent [56832; 55357] = Throw URIError.
Proof. split; reflexivity. Qed.

Example urlencoded_examples :
  urlencoded (str "a b(c):%2A*~" ++ [233]) = str "a+b%28c%29%3A%252A*%7E%C3%A9".
Proof. reflexivity. Qed.

Example urlSearchParams_example :
  toString
    (set (str "b") (str "x y")
       (newURLSearchParams [(str "a", str "1"); (str "b", str "2");
                            (str "c", [])]))
  = str "a=1&b=x+y&c=".
Proof. reflexivity. Qed.

End PlatformExamples.

(** Boolean tests on code units as linear arithmetic. *)
Ltac code_units :=
  unfold isAscii, isUrlSafe, isNumberChar, uriUnescaped, isValueChar,
    isAlpha, isDigit, isLeadSurrogate, isTrailSurrogate;
  cbn [existsb str List.map list_ascii_of_string N_of_ascii N_of_digits];
  cbn;
  rewrite ?orb_false_r;
  repeat rewrite ?orb_true_iff, ?andb_true_iff, ?orb_false_iff,
    ?andb_false_iff, ?N.leb_le, ?N.ltb_lt, ?N.eqb_eq, ?N.leb_gt, ?N.ltb_ge,
    ?N.eqb_neq;
  try lia.

(* ================================================================== *)
(** * Basic facts about strings and arrays                             *)
(* ================================================================== *)

Section StringFacts.

Local Open Scope N_scope.

Lemma streq_spec (a b : jsstring) : streq a b = true <-> a = b.
Proof.
  revert b; induction a as [|x a IH]; intros [|y b]; simpl;
    try (split; [discriminate | congruence]); try tauto.
  rewrite andb_true_iff, N.eqb_eq, IH.
  split; [intros [-> ->]; reflexivity | intros H; inversion H; auto].
Qed.

Lemma truthy_not_empty (s : jsstring) : truthy s = negb (streq s []).
Proof. destruct s; reflexivity. Qed.

Lemma truthy_app_l (a b : jsstring) : truthy a = true -> truthy (a ++ b) = true.
Proof. destruct a; [discriminate | reflexivity]. Qed.

(** A non-empty array whose first element is a non-empty string joins
    to a non-empty string. *)
Lemma truthy_join (sep x : jsstring) (l : list jsstring) :
  truthy x = true -> truthy (join sep (x :: l)) = true.
Proof.
  intros Hx; destruct l; simpl; [assumption | now apply truthy_app_l].
Qed.

Lemma filter_map_swap {A B} (p : B -> bool) (f : A -> B) (l : list A) :
  filter p (List.map f l) = List.map f (filter (fun x => p (f x)) l).
Proof.
  induction l as [|x l IH]; simpl; [reflexivity|].
  destruct (p (f x)); simpl; now rewrite IH.
Qed.

End StringFacts.

(* ================================================================== *)
(** * The clause builders                                              *)
(* ================================================================== *)

Section ClauseBuilders.

Import SearchURLGenerator.

Lemma ieeeTermGroups_unfold l :
  ieeeTermGroups l = termGroupsOf ieeeClause l.
Proof. reflexivity. Qed.

Lemma scopusTermGroups_unfold l :
  scopusTermGroups l = termGroupsOf scopusClause l.
Proof. reflexivity. Qed.

Lemma ieeeClause_truthy group term : truthy (ieeeClause group term) = true.
Proof. reflexivity. Qed.

Lemma scopusClause_truthy group term : truthy (scopusClause group term) = true.
Proof.
  unfold scopusClause. destruct (TermGroup.searchField group); reflexivity.
Qed.

Variable clause : TermGroup.t -> jsstring -> jsstring.
Hypothesis clause_truthy : forall group term, truthy (clause group term) = true.

(** A group with no non-blank term yields the empty string. *)
Lemma groupText_blank group :
  filter nonBlank (TermGroup.terms group) = [] -> groupText clause group = [].
Proof. unfold groupText; intros ->; reflexivity. Qed.

(** A group with a non-blank term yields its joined clauses in
    parentheses, which is not the empty string. *)
Lemma groupText_nonblank group :
  filter nonBlank (TermGroup.terms group) <> [] ->
  groupText clause group =
  str "(" ++
  join (str " " ++ TermGroup.operator group ++ str " ")
    (List.map (clause group) (filter nonBlank (TermGroup.terms group)))
  ++ str ")".
Proof.
  unfold groupText; intros H.
  destruct (filter nonBlank (TermGroup.terms group)) as [|t ts];
    [congruence|].
  cbn [List.map]. now rewrite truthy_join.
Qed.

End ClauseBuilders.

(* ================================================================== *)
(** * The builders against the algorithm of the specification          *)
(* ================================================================== *)

Section Refinement.

Import SearchURLGenerator.

Variable clause : TermGroup.t -> jsstring -> jsstring.
Variable atom : jsstring -> jsstring -> jsstring.
Hypothesis clause_atom :
  forall group term,
    clause group term = atom (TermGroup.searchField group) (trim term).
Hypothesis clause_truthy : forall group term, truthy (clause group term) = true.

Lemma remainingTerms_filter group :
  Spec.remainingTerms group =
  List.map trim (filter nonBlank (TermGroup.terms group)).
Proof. unfold Spec.remainingTerms. now rewrite filter_map_swap. Qed.

(** The text the code builds for a group is the clause of the group,
    and the empty string stands for no clause. *)
Lemma groupText_groupClause group :
  match Spec.groupClause atom group with
  | Some c => groupText clause group = c /\ truthy c = true
  | None => groupText clause group = []
  end.
Proof.
  unfold Spec.groupClause. rewrite remainingTerms_filter.
  destruct (filter nonBlank (TermGroup.terms group)) as [|t ts] eqn:E.
  - cbn. apply groupText_blank. exact E.
  - cbn [List.map]. split; [|reflexivity].
    rewrite groupText_nonblank; [|assumption|rewrite E; discriminate].
    rewrite E, map_map. do 3 f_equal. cbn [List.map].
    f_equal; [apply clause_atom | apply map_ext; intros; apply clause_atom].
Qed.

Lemma termGroups_groupClauses l :
  termGroupsOf clause l = Spec.groupClauses atom l.
Proof.
  unfold termGroupsOf.
  induction l as [|group l IH]; [reflexivity|].
  cbn [List.map filter Spec.groupClauses flat_map].
  fold (Spec.groupClauses atom l). rewrite IH.
  pose proof (groupText_groupClause group) as H.
  destruct (Spec.groupClause atom group) as [c|].
  - destruct H as [-> Hc]. rewrite <- truthy_not_empty, Hc. reflexivity.
  - rewrite H. reflexivity.
Qed.

End Refinement.

Section Builders.

Import SearchURLGenerator.

Lemma ieeeTermGroups_spec l :
  ieeeTermGroups l = Spec.groupClauses Spec.ieeeAtom l.
Proof.
  rewrite ieeeTermGroups_unfold.
  apply termGroups_groupClauses;
    [reflexivity | apply ieeeClause_truthy].
Qed.

Lemma scopusTermGroups_spec l :
  scopusTermGroups l = Spec.groupClauses Spec.scopusAtom l.
Proof.
  rewrite scopusTermGroups_unfold.
  apply termGroups_groupClauses;
    [reflexivity | apply scopusClause_truthy].
Qed.

(** With no group clause the builders return the empty string, which is
    also what encoding the empty query gives. *)
Lemma buildIEEEQueryText_fullQuery l :
  buildIEEEQueryText l = encodeURIComponent (ieeeFullQuery l).
Proof.
  unfold buildIEEEQueryText, ieeeFullQuery.
  destruct (ieeeTermGroups l); reflexivity.
Qed.

Lemma buildScopusQuery_fullQuery l :
  buildScopusQuery l = encodeURIComponent (scopusFullQuery l).
Proof.
  unfold buildScopusQuery, scopusFullQuery.
  destruct (scopusTermGroups l); reflexivity.
Qed.

(** C4. For both targets the query the builder encodes is the one the
    clause-building algorithm describes: the terms of a group are
    trimmed and the blank ones dropped, each remaining term becomes one
    atomic clause, the clauses of a group are joined with the group's
    operator between spaces and put in parentheses, and the clauses of
    the groups that have one are joined, in group order, with AND. *)
Theorem clause_building_algorithm (searchTerms : list TermGroup.t) :
  ieeeTermGroups searchTerms = Spec.groupClauses Spec.ieeeAtom searchTerms
  /\ ieeeFullQuery searchTerms = Spec.fragment Spec.ieeeAtom searchTerms
  /\ buildIEEEQueryText searchTerms =
     encodeURIComponent (Spec.fragment Spec.ieeeAtom searchTerms)
  /\ scopusTermGroups searchTerms =
     Spec.groupClauses Spec.scopusAtom searchTerms
  /\ scopusFullQuery searchTerms = Spec.fragment Spec.scopusAtom searchTerms
  /\ buildScopusQuery searchTerms =
     encodeURIComponent (Spec.fragment Spec.scopusAtom searchTerms).
Proof.
  rewrite buildIEEEQueryText_fullQuery, buildScopusQuery_fullQuery.
  unfold ieeeFullQuery, scopusFullQuery, Spec.fragment.
  rewrite ieeeTermGroups_spec, scopusTermGroups_spec.
  repeat split.
Qed.

End Builders.

(* ================================================================== *)
(** * Blank terms and blank groups                                     *)
(* ================================================================== *)

Section BlankTerms.

Import SearchURLGenerator.

Lemma nonBlank_empty : nonBlank [] = false.
Proof. reflexivity. Qed.

Lemma nonBlank_two_spaces : nonBlank (str "  ") = false.
Proof. reflexivity. Qed.

Lemma filter_nonBlank_all_blank (ts : list jsstring) :
  existsb nonBlank ts = false -> filter nonBlank ts = [].
Proof.
  induction ts as [|t ts IH]; simpl; [reflexivity|].
  destruct (nonBlank t); simpl; [discriminate | exact IH].
Qed.

(** The URL depends on the term groups through the constant
    [termGroups] of the builder only. *)
Lemma generateIEEEURL_termGroups fd l l' :
  ieeeTermGroups l = ieeeTermGroups l' ->
  generateIEEEURL (FormData.withSearchTerms l fd) =
  generateIEEEURL (FormData.withSearchTerms l' fd).
Proof.
  intros H. unfold generateIEEEURL, buildIEEEQueryText.
  cbn [FormData.withSearchTerms FormData.searchTerms]. now rewrite H.
Qed.

Lemma generateScopusURL_termGroups fd l l' :
  scopusTermGroups l = scopusTermGroups l' ->
  generateScopusURL (FormData.withSearchTerms l fd) =
  generateScopusURL (FormData.withSearchTerms l' fd).
Proof.
  intros H. unfold generateScopusURL, buildScopusQuery.
  cbn [FormData.withSearchTerms FormData.searchTerms]. now rewrite H.
Qed.

Lemma generateURL_termGroups this fd l l' :
  ieeeTermGroups l = ieeeTermGroups l' ->
  scopusTermGroups l = scopusTermGroups l' ->
  generateURL this (FormData.withSearchTerms l fd) =
  generateURL this (FormData.withSearchTerms l' fd).
Proof.
  intros Hi Hs. unfold generateURL.
  rewrite (generateIEEEURL_termGroups fd _ _ Hi),
          (generateScopusURL_termGroups fd _ _ Hs).
  reflexivity.
Qed.

Variable clause : TermGroup.t -> jsstring -> jsstring.
Hypothesis clause_terms :
  forall ts group term, clause (TermGroup.withTerms ts group) term = clause group term.

(** Replacing the terms of one group by terms with the same non-blank
    ones changes no group text. *)
Lemma texts_same_nonBlank before after group ts ts' :
  filter nonBlank ts = filter nonBlank ts' ->
  termGroupsOf clause (before ++ TermGroup.withTerms ts group :: after) =
  termGroupsOf clause (before ++ TermGroup.withTerms ts' group :: after).
Proof.
  intros H. unfold termGroupsOf. rewrite !map_app. cbn [List.map].
  replace (groupText clause (TermGroup.withTerms ts group))
    with (groupText clause (TermGroup.withTerms ts' group)); [reflexivity|].
  unfold groupText. cbn [TermGroup.withTerms TermGroup.terms TermGroup.operator].
  rewrite H. erewrite map_ext; [reflexivity|].
  intros term. now rewrite !clause_terms.
Qed.

(** A group without a non-blank term leaves no text behind. *)
Lemma texts_blank_group before after group :
  existsb nonBlank (TermGroup.terms group) = false ->
  termGroupsOf clause (before ++ group :: after) =
  termGroupsOf clause (before ++ after).
Proof.
  intros H. unfold termGroupsOf. rewrite !map_app, !filter_app.
  cbn [List.map filter].
  rewrite groupText_blank by now apply filter_nonBlank_all_blank.
  reflexivity.
Qed.

End BlankTerms.

Section BlankTermsURL.

Import SearchURLGenerator.

(** C9. For every generator, form and group position, the URL with the
    terms of that group being the empty string, two spaces and [x] is
    the URL with the terms being [x] alone; and a group all of whose
    terms are blank can be deleted without changing the URL. *)
Theorem blank_terms_and_groups_ignored
  (this : SearchURLGenerator.t) (fd : FormData.t)
  (before after : list TermGroup.t) (group blank : TermGroup.t)
  (x : jsstring)
  (Hblank : existsb nonBlank (TermGroup.terms blank) = false) :
  generateURL this
    (FormData.withSearchTerms
       (before ++ TermGroup.withTerms [[]; str "  "; x] group :: after) fd) =
  generateURL this
    (FormData.withSearchTerms
       (before ++ TermGroup.withTerms [x] group :: after) fd)
  /\ generateURL this
       (FormData.withSearchTerms (before ++ blank :: after) fd) =
     generateURL this (FormData.withSearchTerms (before ++ after) fd)
  /\ ieeeFullQuery (before ++ blank :: after) = ieeeFullQuery (before ++ after)
  /\ scopusFullQuery (before ++ blank :: after) =
     scopusFullQuery (before ++ after).
Proof.
  split; [|split; [|split]].
  - apply generateURL_termGroups; rewrite ?ieeeTermGroups_unfold,
      ?scopusTermGroups_unfold; now apply texts_same_nonBlank.
  - apply generateURL_termGroups; rewrite ?ieeeTermGroups_unfold,
      ?scopusTermGroups_unfold; now apply texts_blank_group.
  - unfold ieeeFullQuery. rewrite !ieeeTermGroups_unfold.
    now rewrite texts_blank_group.
  - unfold scopusFullQuery. rewrite !scopusTermGroups_unfold.
    now rewrite texts_blank_group.
Qed.

End BlankTermsURL.

(* ================================================================== *)
(** * The two encoders                                                 *)
(* ================================================================== *)

Section Encoders.

Local Open Scope N_scope.

(** Induction on a list with the hypothesis also for the tail of the
    tail, as the functions that look at surrogate pairs need it. *)
Lemma list_ind_pair {A} (P : list A -> Prop) :
  P [] -> (forall x l, P l -> P (tl l) -> P (x :: l)) -> forall l, P l.
Proof.
  intros H0 HS.
  assert (H : forall l, P l /\ P (tl l)).
  { induction l as [|x l [IH1 IH2]]; simpl; [now split|].
    split; [now apply HS | assumption]. }
  intros l; apply H.
Qed.

Lemma ascii_not_surrogate c :
  isAscii c = true ->
  isLeadSurrogate c = false /\ isTrailSurrogate c = false /\ utf8 c = [c].
Proof.
  intros H. assert (Hc : c < 128) by (revert H; code_units).
  unfold utf8. rewrite (proj2 (N.ltb_lt c 128) Hc).
  repeat split; code_units.
Qed.

Lemma urlSafe_ascii c : isUrlSafe c = true -> isAscii c = true.
Proof.
  code_units.
Qed.

Lemma numberChar_urlSafe c : isNumberChar c = true -> isUrlSafe c = true.
Proof.
  code_units.
Qed.

Lemma numberChar_unescaped c : isNumberChar c = true -> uriUnescaped c = true.
Proof.
  code_units.
Qed.

Lemma unescaped_ascii c : uriUnescaped c = true -> isAscii c = true.
Proof.
  code_units.
Qed.

Lemma forallb_impl {A} (p q : A -> bool) (l : list A) :
  (forall x, p x = true -> q x = true) ->
  forallb p l = true -> forallb q l = true.
Proof.
  intros Hpq. rewrite !forallb_forall. auto.
Qed.

(** ** Strings of ASCII characters *)

Lemma toUSVString_ascii s : forallb isAscii s = true -> toUSVString s = s.
Proof.
  induction s as [|c s IH]; [reflexivity|].
  cbn [forallb]. rewrite andb_true_iff. intros [Hc Hs].
  destruct (ascii_not_surrogate c Hc) as (Hl & Ht & _).
  cbn [toUSVString]. rewrite Hl, Ht, IH by assumption. reflexivity.
Qed.

Lemma utf8Encode_app_ascii a b :
  forallb isAscii a = true -> utf8Encode (a ++ b) = a ++ utf8Encode b.
Proof.
  induction a as [|c a IH]; [reflexivity|].
  cbn [forallb]. rewrite andb_true_iff. intros [Hc Ha].
  destruct (ascii_not_surrogate c Hc) as (Hl & Ht & Hu).
  cbn [app utf8Encode]. rewrite Hl, Ht, Hu, IH by assumption. reflexivity.
Qed.

Lemma utf8Encode_ascii s : forallb isAscii s = true -> utf8Encode s = s.
Proof.
  intros H. rewrite <- (app_nil_r s) at 1.
  rewrite utf8Encode_app_ascii by assumption. apply app_nil_r.
Qed.

(** The serializer works on an ASCII prefix character by character. *)
Lemma urlencoded_app_ascii a b :
  forallb isAscii a = true -> urlencoded (a ++ b) = urlencoded a ++ urlencoded b.
Proof.
  intros H. unfold urlencoded.
  rewrite utf8Encode_app_ascii, (utf8Encode_ascii a) by assumption.
  apply flat_map_app.
Qed.

Lemma urlencodedByte_safe c : isUrlSafe c = true -> urlencodedByte c = [c].
Proof.
  unfold urlencodedByte. fold (isUrlSafe c). intros H. rewrite H.
  destruct (N.eqb_spec c 32) as [->|]; [discriminate H | reflexivity].
Qed.

(** The serializer copies a string of letters, digits and [* - . _]. *)
Lemma urlencoded_safe s : forallb isUrlSafe s = true -> urlencoded s = s.
Proof.
  intros H. unfold urlencoded.
  rewrite utf8Encode_ascii by (revert H; apply forallb_impl, urlSafe_ascii).
  induction s as [|c s IH]; [reflexivity|].
  cbn [forallb] in H. apply andb_true_iff in H as [Hc Hs].
  cbn [flat_map]. rewrite urlencodedByte_safe, IH by assumption. reflexivity.
Qed.

(** ** Printed integers *)

Lemma string_of_uint_digits d :
  forallb isNumberChar (str (NilEmpty.string_of_uint d)) = true.
Proof. induction d; cbn; auto. Qed.

Lemma string_of_uint_zero_digits d :
  forallb isNumberChar (str (NilZero.string_of_uint d)) = true.
Proof. destruct d; try apply string_of_uint_digits; reflexivity. Qed.

Lemma numberToString_chars z : forallb isNumberChar (numberToString z) = true.
Proof.
  unfold numberToString.
  destruct (Z.to_int z) as [d|d]; cbn [NilZero.string_of_int].
  - apply string_of_uint_zero_digits.
  - change (forallb isNumberChar (45 :: str (NilZero.string_of_uint d)) = true).
    cbn [forallb]. now rewrite string_of_uint_zero_digits.
Qed.

Lemma numberToString_urlSafe z : forallb isUrlSafe (numberToString z) = true.
Proof.
  generalize (numberToString_chars z). apply forallb_impl, numberChar_urlSafe.
Qed.

Lemma numberToString_ascii z : forallb isAscii (numberToString z) = true.
Proof.
  generalize (numberToString_urlSafe z). apply forallb_impl, urlSafe_ascii.
Qed.

Lemma urlencoded_number z : urlencoded (numberToString z) = numberToString z.
Proof. apply urlencoded_safe, numberToString_urlSafe. Qed.

Lemma toUSVString_number z : toUSVString (numberToString z) = numberToString z.
Proof. apply toUSVString_ascii, numberToString_ascii. Qed.

(** ** [encodeURIComponent] *)

Lemma hexDigit_ascii n : isAscii (hexDigit n) = true.
Proof.
  unfold hexDigit. generalize (N.to_nat n) as k.
  do 16 (destruct k as [|k]; [reflexivity|]). destruct k; reflexivity.
Qed.

Lemma percentOctets_ascii l : forallb isAscii (flat_map percentOctet l) = true.
Proof.
  induction l as [|b l IH]; [reflexivity|].
  cbn [flat_map percentOctet app forallb].
  now rewrite !hexDigit_ascii, IH.
Qed.

(** The escaped string is made of ASCII characters only. *)
Lemma encodeURIComponent_ascii s :
  forall e, encodeURIComponent s = Ok e -> forallb isAscii e = true.
Proof.
  induction s as [|c s IH IH2] using list_ind_pair; intros e.
  - cbn. intros [= <-]. reflexivity.
  - cbn [encodeURIComponent].
    destruct (uriUnescaped c) eqn:Hu.
    + destruct (encodeURIComponent s) as [r|]; [|discriminate].
      cbn. intros [= <-]. cbn. now rewrite (unescaped_ascii _ Hu), (IH r).
    + destruct (isLeadSurrogate c).
      * destruct s as [|d s'']; [discriminate|].
        destruct (isTrailSurrogate d); [|discriminate].
        cbn [tl] in IH2.
        destruct (encodeURIComponent s'') as [r|]; [|discriminate].
        cbn. intros [= <-].
        now rewrite forallb_app, percentOctets_ascii, (IH2 r).
      * destruct (isTrailSurrogate c); [discriminate|].
        destruct (encodeURIComponent s) as [r|]; [|discriminate].
        cbn. intros [= <-].
        now rewrite forallb_app, percentOctets_ascii, (IH r).
Qed.

(** A string of unescaped characters is returned as it is. *)
Lemma encodeURIComponent_unescaped s :
  forallb uriUnescaped s = true -> encodeURIComponent s = Ok s.
Proof.
  induction s as [|c s IH]; [reflexivity|].
  cbn [forallb]. rewrite andb_true_iff. intros [Hc Hs].
  cbn [encodeURIComponent]. now rewrite Hc, IH.
Qed.

Lemma encodeURIComponent_number z :
  encodeURIComponent (numberToString z) = Ok (numberToString z).
Proof.
  apply encodeURIComponent_unescaped.
  generalize (numberToString_chars z). apply forallb_impl, numberChar_unescaped.
Qed.

(** Escaping works on an ASCII prefix on its own. *)
Lemma encodeURIComponent_app_ascii a b :
  forallb isAscii a = true ->
  encodeURIComponent (a ++ b) =
  bind (encodeURIComponent a) (fun x =>
  bind (encodeURIComponent b) (fun y => Ok (x ++ y))).
Proof.
  induction a as [|c a IH].
  - intros _. cbn. destruct (encodeURIComponent b); reflexivity.
  - cbn [forallb]. rewrite andb_true_iff. intros [Hc Ha].
    destruct (ascii_not_surrogate c Hc) as (Hl & Ht & Hu8).
    cbn [app encodeURIComponent]. rewrite Hl, Ht, IH by assumption.
    destruct (uriUnescaped c);
      destruct (encodeURIComponent a) as [x|]; cbn; try reflexivity;
      destruct (encodeURIComponent b) as [y|]; cbn; try reflexivity.
    now rewrite app_assoc.
Qed.

End Encoders.

(* ================================================================== *)
(** * The shape of the generated URLs                                  *)
(* ================================================================== *)

Section URLShape.

Import SearchURLGenerator.

Lemma rangesValue_urlSafe fd : forallb isUrlSafe (rangesValue fd) = true.
Proof.
  unfold rangesValue.
  now rewrite !forallb_app, !numberToString_urlSafe.
Qed.

(** The IEEE URL, given the escaped query [q]. *)
Lemma generateIEEEURL_shape fd q :
  encodeURIComponent (ieeeFullQuery (FormData.searchTerms fd)) = Ok q ->
  generateIEEEURL fd =
  Ok (ieeeBaseURL
      ++ str "?action=search&newsearch=true&matchBoolean=true&queryText="
      ++ urlencoded q ++ str "&ranges=" ++ rangesValue fd).
Proof.
  intros Hq. unfold generateIEEEURL.
  rewrite buildIEEEQueryText_fullQuery, Hq. cbn [bind].
  unfold ieeeParams, newURLSearchParams. cbn [List.map fst snd].
  fold (rangesValue fd).
  rewrite (toUSVString_ascii q) by (eapply encodeURIComponent_ascii; eassumption).
  rewrite (toUSVString_ascii (rangesValue fd))
    by (generalize (rangesValue_urlSafe fd); apply forallb_impl, urlSafe_ascii).
  unfold toString. cbn [List.map fst snd join].
  rewrite (urlencoded_safe (rangesValue fd)) by apply rangesValue_urlSafe.
  reflexivity.
Qed.

(** The year clause is escaped character by character: only its
    spaces and its two comparison signs change. *)
Lemma encodeURIComponent_yearClause fd :
  encodeURIComponent (yearClause fd) = Ok (encodedYearClause fd).
Proof.
  unfold yearClause, encodedYearClause.
  rewrite encodeURIComponent_app_ascii by reflexivity.
  rewrite encodeURIComponent_app_ascii by apply numberToString_ascii.
  rewrite encodeURIComponent_app_ascii by reflexivity.
  rewrite !encodeURIComponent_number. reflexivity.
Qed.

Lemma encodedYearClause_ascii fd : forallb isAscii (encodedYearClause fd) = true.
Proof.
  apply (encodeURIComponent_ascii (yearClause fd)).
  apply encodeURIComponent_yearClause.
Qed.

Lemma scopusParams_get q fd :
  get (str "s") (scopusParams q fd) = Some (toUSVString q).
Proof. reflexivity. Qed.

Lemma scopusParams_set v q fd :
  toString (set (str "s") v (scopusParams q fd)) =
  str "sort=plf-f&src=s&sot=a&sdt=a&sl=211&s=" ++ urlencoded (toUSVString v)
  ++ str "&origin=searchadvanced&editSaveSearch=&limit="
  ++ urlencoded (toUSVString (numberToString (FormData.resultsPerPage fd))).
Proof. reflexivity. Qed.

(** The Scopus URL, given the escaped query [q]. *)
Lemma generateScopusURL_shape fd q :
  encodeURIComponent (scopusFullQuery (FormData.searchTerms fd)) = Ok q ->
  generateScopusURL fd =
  Ok (scopusBaseURL ++ str "?sort=plf-f&src=s&sot=a&sdt=a&sl=211&s="
      ++ urlencoded (q ++ str " " ++ encodedYearClause fd)
      ++ str "&origin=searchadvanced&editSaveSearch=&limit="
      ++ numberToString (FormData.resultsPerPage fd)).
Proof.
  intros Hq. unfold generateScopusURL.
  rewrite buildScopusQuery_fullQuery, Hq. cbn [bind].
  rewrite encodeURIComponent_yearClause. cbn [bind].
  rewrite scopusParams_get, scopusParams_set. cbn [templateString].
  assert (Ha : forallb isAscii q = true)
    by (eapply encodeURIComponent_ascii; eassumption).
  rewrite (toUSVString_ascii q) by assumption.
  rewrite toUSVString_ascii
    by now rewrite !forallb_app, Ha, encodedYearClause_ascii.
  rewrite toUSVString_number, urlencoded_number.
  reflexivity.
Qed.

End URLShape.

(* ================================================================== *)
(** * Well-formed strings: when escaping cannot throw                  *)
(* ================================================================== *)

Section WellFormed.

Import SearchURLGenerator.
Local Open Scope N_scope.

Ltac surrogates :=
  unfold isLeadSurrogate, isTrailSurrogate, isAscii, isWhiteSpace;
  cbn [existsb];
  rewrite ?orb_false_r;
  repeat rewrite ?orb_true_iff, ?andb_true_iff, ?orb_false_iff,
    ?andb_false_iff, ?N.leb_le, ?N.ltb_lt, ?N.eqb_eq, ?N.leb_gt, ?N.ltb_ge,
    ?N.eqb_neq;
  try lia.

Lemma whiteSpace_not_surrogate c :
  isWhiteSpace c = true ->
  isLeadSurrogate c = false /\ isTrailSurrogate c = false.
Proof. surrogates. Qed.

Lemma surrogate_not_whiteSpace c :
  isLeadSurrogate c = true \/ isTrailSurrogate c = true ->
  isWhiteSpace c = false.
Proof.
  intros H. destruct (isWhiteSpace c) eqn:E; [|reflexivity].
  destruct (whiteSpace_not_surrogate c E) as [Hl Ht].
  rewrite Hl, Ht in H. destruct H; discriminate.
Qed.

(** A well-formed string is escaped without an exception. *)
Lemma encodeURIComponent_wellFormed s :
  isWellFormed s = true -> exists e, encodeURIComponent s = Ok e.
Proof.
  induction s as [|c s IH IH2] using list_ind_pair; [now exists []|].
  cbn [isWellFormed encodeURIComponent].
  destruct (isLeadSurrogate c) eqn:Hl.
  - destruct s as [|d s'']; [discriminate|].
    rewrite andb_true_iff. intros [Hd Hs]. cbn [tl] in IH2.
    destruct (uriUnescaped c) eqn:Hu.
    + apply unescaped_ascii, ascii_not_surrogate in Hu.
      destruct Hu as (Hl' & _). congruence.
    + rewrite Hd. destruct (IH2 Hs) as [r ->]. cbn. eauto.
  - rewrite andb_true_iff, negb_true_iff. intros [Ht Hs].
    rewrite Ht. destruct (IH Hs) as [r ->].
    destruct (uriUnescaped c); cbn; eauto.
Qed.

(** An unpaired surrogate makes [encodeURIComponent] throw. *)
Lemma encodeURIComponent_not_wellFormed s :
  isWellFormed s = false -> encodeURIComponent s = Throw URIError.
Proof.
  induction s as [|c s IH IH2] using list_ind_pair; [discriminate|].
  cbn [isWellFormed encodeURIComponent].
  destruct (uriUnescaped c) eqn:Hu.
  - apply unescaped_ascii, ascii_not_surrogate in Hu.
    destruct Hu as (-> & -> & _). cbn. intros H. now rewrite (IH H).
  - destruct (isLeadSurrogate c) eqn:Hl.
    + destruct s as [|d s'']; [reflexivity|].
      destruct (isTrailSurrogate d); [|reflexivity].
      cbn [tl andb] in *. intros H. now rewrite (IH2 H).
    + destruct (isTrailSurrogate c); [reflexivity|].
      cbn. intros H. now rewrite (IH H).
Qed.

Lemma isWellFormed_app a b :
  isWellFormed a = true -> isWellFormed b = true -> isWellFormed (a ++ b) = true.
Proof.
  intros Ha Hb. revert Ha.
  induction a as [|c a IH IH2] using list_ind_pair; [trivial|].
  cbn [isWellFormed app].
  destruct (isLeadSurrogate c).
  - destruct a as [|d a'']; [discriminate|].
    cbn [app tl] in *. rewrite !andb_true_iff. intros [Hd Ha]. auto.
  - rewrite !andb_true_iff. intros [Hc Ha]. auto.
Qed.

Lemma isWellFormed_ascii s : forallb isAscii s = true -> isWellFormed s = true.
Proof.
  induction s as [|c s IH]; [reflexivity|].
  cbn [forallb isWellFormed]. rewrite andb_true_iff. intros [Hc Hs].
  destruct (ascii_not_surrogate c Hc) as (-> & -> & _). now rewrite IH.
Qed.

Lemma isWellFormed_trimStart s :
  isWellFormed s = true -> isWellFormed (trimStart s) = true.
Proof.
  induction s as [|c s IH]; [trivial|].
  cbn [trimStart]. destruct (isWhiteSpace c) eqn:Hw; [|trivial].
  destruct (whiteSpace_not_surrogate c Hw) as [Hl Ht].
  cbn [isWellFormed]. rewrite Hl, Ht. exact IH.
Qed.

Lemma trimEnd_cons c s :
  isWhiteSpace c = false -> trimEnd (c :: s) = c :: trimEnd s.
Proof. intros H. cbn [trimEnd]. rewrite H. now destruct (trimEnd s). Qed.

Lemma isWellFormed_trimEnd s :
  isWellFormed s = true -> isWellFormed (trimEnd s) = true.
Proof.
  induction s as [|c s IH IH2] using list_ind_pair; [trivial|].
  cbn [isWellFormed]. destruct (isLeadSurrogate c) eqn:Hl.
  - destruct s as [|d s'']; [discriminate|].
    rewrite andb_true_iff. intros [Hd Hs]. cbn [tl] in IH2.
    rewrite !trimEnd_cons by (apply surrogate_not_whiteSpace; auto).
    cbn [isWellFormed]. rewrite Hl, Hd. now apply IH2.
  - rewrite andb_true_iff, negb_true_iff. intros [Ht Hs].
    cbn [trimEnd]. specialize (IH Hs).
    destruct (trimEnd s) as [|x r].
    + destruct (isWhiteSpace c); [reflexivity|].
      cbn [isWellFormed]. now rewrite Hl, Ht.
    + cbn [isWellFormed] in *. now rewrite Hl, Ht.
Qed.

Lemma isWellFormed_trim s : isWellFormed s = true -> isWellFormed (trim s) = true.
Proof. intros H. now apply isWellFormed_trimEnd, isWellFormed_trimStart. Qed.

Lemma isWellFormed_join sep l :
  isWellFormed sep = true -> forallb isWellFormed l = true ->
  isWellFormed (join sep l) = true.
Proof.
  intros Hsep. induction l as [|x l IH]; [trivial|].
  cbn [forallb]. rewrite andb_true_iff. intros [Hx Hl].
  destruct l as [|y l]; [exact Hx|].
  change (join sep (x :: y :: l)) with (x ++ sep ++ join sep (y :: l)).
  auto using isWellFormed_app.
Qed.

Lemma forallb_map {A B} (p : B -> bool) (f : A -> B) l :
  forallb p (List.map f l) = forallb (fun x => p (f x)) l.
Proof. induction l; cbn; congruence. Qed.

Lemma forallb_filter {A} (p q : A -> bool) l :
  forallb p l = true -> forallb p (filter q l) = true.
Proof.
  rewrite !forallb_forall. intros H x Hx. apply filter_In in Hx. now apply H.
Qed.

Variable clause : TermGroup.t -> jsstring -> jsstring.
Hypothesis clause_wellFormed :
  forall group term,
    isWellFormed (TermGroup.searchField group) = true ->
    isWellFormed term = true ->
    isWellFormed (clause group term) = true.

Lemma groupText_wellFormed group :
  groupWellFormed group = true -> isWellFormed (groupText clause group) = true.
Proof.
  unfold groupWellFormed. rewrite !andb_true_iff. intros [[Hf Ho] Ht].
  unfold groupText. cbv zeta.
  destruct (truthy _); [|reflexivity].
  repeat apply isWellFormed_app; try reflexivity.
  apply isWellFormed_join.
  - repeat apply isWellFormed_app; trivial.
  - rewrite forallb_map. apply forallb_forall. intros term Hin.
    apply filter_In in Hin as [Hin _].
    apply clause_wellFormed; [assumption|].
    rewrite forallb_forall in Ht. auto.
Qed.

Lemma fullQuery_wellFormed l :
  forallb groupWellFormed l = true ->
  isWellFormed
    (join (str " AND ")
       (termGroupsOf clause l))
  = true.
Proof.
  intros H. unfold termGroupsOf. apply isWellFormed_join; [reflexivity|].
  apply forallb_filter. rewrite forallb_map.
  revert H. apply forallb_impl, groupText_wellFormed.
Qed.

End WellFormed.

(* ================================================================== *)
(** * Dispatch                                                         *)
(* ================================================================== *)

Section Dispatch.

Import SearchURLGenerator.

Lemma generateURL_ieee this fd :
  currentDatabase this = str "ieee" -> generateURL this fd = generateIEEEURL fd.
Proof. intros H. unfold generateURL. now rewrite H. Qed.

Lemma generateURL_scopus this fd :
  currentDatabase this = str "scopus" ->
  generateURL this fd = generateScopusURL fd.
Proof. intros H. unfold generateURL. now rewrite H. Qed.

Lemma generateURL_unsupported this fd :
  currentDatabase this <> str "ieee" ->
  currentDatabase this <> str "scopus" ->
  generateURL this fd = Throw (Error (str "Unsupported database type")).
Proof.
  intros Hi Hs. unfold generateURL.
  destruct (streq (currentDatabase this) (str "ieee")) eqn:Ei;
    [apply streq_spec in Ei; contradiction|].
  destruct (streq (currentDatabase this) (str "scopus")) eqn:Es;
    [apply streq_spec in Es; contradiction|].
  reflexivity.
Qed.

(** C1, as the code has it. [generateURL] never reads the [database]
    field of the form it is given: it dispatches on the generator's own
    [currentDatabase], which is [ieee] in a new generator and is
    whatever the last [setDatabase] stored. So the URL is a function of
    the generator's current database and of the rest of the form: after
    [setDatabase('ieee')] it is the IEEE URL, after
    [setDatabase('scopus')] the Scopus URL, for every form. *)
Theorem generateURL_dispatches_on_currentDatabase
  (this : SearchURLGenerator.t) (fd : FormData.t) (d : jsstring) :
  generateURL this (FormData.withDatabase d fd) = generateURL this fd
  /\ generateURL constructor fd = generateIEEEURL fd
  /\ generateURL (setDatabase (str "ieee") this) fd = generateIEEEURL fd
  /\ generateURL (setDatabase (str "scopus") this) fd = generateScopusURL fd
  /\ generateURL (setDatabase d this) fd = generateURL (mk d) fd.
Proof. repeat split. Qed.

(** C1, as the specification has it, fails: a new generator, on which
    [setDatabase] was never called, gives the form whose database is
    [scopus] the IEEE URL, and gives it another URL once
    [setDatabase('scopus')] has been called. *)
Lemma generateURL_ignores_model_target :
  FormData.database (scenario2 None 50) = str "scopus"
  /\ generateURL constructor (scenario2 None 50) =
     generateIEEEURL (scenario2 None 50)
  /\ generateURL constructor (scenario2 None 50) <>
     generateScopusURL (scenario2 None 50)
  /\ generateURL (setDatabase (str "scopus") constructor) (scenario2 None 50)
     <> generateURL constructor (scenario2 None 50).
Proof.
  repeat split; intros H; vm_compute in H; discriminate H.
Qed.

End Dispatch.

(* ================================================================== *)
(** * The parameters of the two URLs                                   *)
(* ================================================================== *)

Section Parameters.

Import SearchURLGenerator.
Local Open Scope N_scope.

Lemma hexDigit_urlSafe n : isUrlSafe (hexDigit n) = true.
Proof.
  unfold hexDigit. generalize (N.to_nat n) as k.
  do 16 (destruct k as [|k]; [reflexivity|]). destruct k; reflexivity.
Qed.

(** The second encoding escapes the percent sign of an escape. *)
Lemma urlencoded_percentOctet b :
  urlencoded (percentOctet b) =
  str "%25" ++ [hexDigit (N.shiftr b 4); hexDigit (N.land b 15)].
Proof.
  unfold percentOctet.
  change [37; hexDigit (N.shiftr b 4); hexDigit (N.land b 15)]
    with ([37] ++ [hexDigit (N.shiftr b 4); hexDigit (N.land b 15)]).
  rewrite urlencoded_app_ascii by reflexivity.
  rewrite (urlencoded_safe [_; _])
    by (cbn [forallb]; now rewrite !hexDigit_urlSafe).
  reflexivity.
Qed.

(** The Scopus serializer throws when the query cannot be escaped. *)
Lemma generateScopusURL_throws fd :
  isWellFormed (scopusFullQuery (FormData.searchTerms fd)) = false ->
  generateScopusURL fd = Throw URIError.
Proof.
  intros H. unfold generateScopusURL.
  now rewrite buildScopusQuery_fullQuery,
    (encodeURIComponent_not_wellFormed _ H).
Qed.

Lemma scopusFullQuery_wellFormed fd :
  formWellFormed fd = true ->
  isWellFormed (scopusFullQuery (FormData.searchTerms fd)) = true.
Proof.
  intros Hwf. unfold scopusFullQuery. rewrite scopusTermGroups_unfold.
  apply fullQuery_wellFormed; [|exact Hwf].
  intros group term Hf Ht. unfold scopusClause.
  repeat apply isWellFormed_app; trivial. now apply isWellFormed_trim.
Qed.

(** C5, as the code has it. Take a Scopus form whose years and page
    size are safe integers, the generator set to its target. When the
    boolean expression has no unpaired surrogate, which is so whenever
    no field, operator or term has one, it can be percent-encoded, to
    [q], and the URL has exactly the parameters sort, src, sot, sdt,
    sl, s, origin, editSaveSearch and limit, with the fixed values: the
    value of [s] is [q], a space and the percent-encoded year clause
    [AND PUBYEAR > startYear AND PUBYEAR < endYear + 1], serialized as
    one parameter, and [limit] is the page size. When the expression
    has an unpaired surrogate the serializer throws a URIError and
    there is no URL. *)
Theorem scopus_url_parameters
  (this : SearchURLGenerator.t) (fd : FormData.t)
  (Htarget : FormData.database fd = str "scopus")
  (Hsync : currentDatabase this = FormData.database fd)
  (Hsafe : formNumbersSafe fd = true) :
  (isWellFormed (scopusFullQuery (FormData.searchTerms fd)) = true ->
   exists q,
     encodeURIComponent (scopusFullQuery (FormData.searchTerms fd)) = Ok q
     /\ generateURL this fd =
        Ok (str "https://www.scopus.com/results/results.uri"
            ++ str "?sort=plf-f&src=s&sot=a&sdt=a&sl=211&s="
            ++ urlencoded (q ++ str " " ++ encodedYearClause fd)
            ++ str "&origin=searchadvanced&editSaveSearch=&limit="
            ++ numberToString (FormData.resultsPerPage fd)))
  /\ (isWellFormed (scopusFullQuery (FormData.searchTerms fd)) = false ->
      generateURL this fd = Throw URIError)
  /\ (formWellFormed fd = true ->
      isWellFormed (scopusFullQuery (FormData.searchTerms fd)) = true)
  /\ encodeURIComponent (yearClause fd) = Ok (encodedYearClause fd)
  /\ yearClause fd =
     str "AND PUBYEAR > " ++ numberToString (FormData.startYear fd)
     ++ str " AND PUBYEAR < " ++ numberToString (FormData.endYear fd + 1).
Proof.
  rewrite generateURL_scopus by congruence.
  split; [|split; [|split; [|split]]].
  - intros Hwf.
    destruct (encodeURIComponent_wellFormed _ Hwf) as [q Hq].
    exists q. split; [exact Hq | now apply generateScopusURL_shape].
  - apply generateScopusURL_throws.
  - apply scopusFullQuery_wellFormed.
  - apply encodeURIComponent_yearClause.
  - reflexivity.
Qed.

Lemma scopus_url_parameters_witness :
  exists q,
    encodeURIComponent
      (scopusFullQuery (FormData.searchTerms (scenario2 None 50))) = Ok q
    /\ generateURL (setDatabase (str "scopus") constructor) (scenario2 None 50)
       = Ok (str "https://www.scopus.com/results/results.uri"
             ++ str "?sort=plf-f&src=s&sot=a&sdt=a&sl=211&s="
             ++ urlencoded (q ++ str " " ++ encodedYearClause (scenario2 None 50))
             ++ str "&origin=searchadvanced&editSaveSearch=&limit="
             ++ numberToString 50).
Proof.
  exact (proj1 (scopus_url_parameters (setDatabase (str "scopus") constructor)
                  (scenario2 None 50) eq_refl eq_refl eq_refl)
           eq_refl).
Defined.

(** C5, as the specification has it, fails: for this Scopus form, which
    [validateFormData] accepts and whose numbers are safe, the
    serializer throws and builds no parameter at all, the one term
    being a lead surrogate on its own. *)
Lemma scopus_serializer_throws_on_unpaired_surrogate :
  FormData.database
    (FormData.withSearchTerms
       [TermGroup.mk None (str "TITLE-ABS-KEY") (str "OR") [[55296]]]
       (scenario2 None 50)) = str "scopus"
  /\ Validation.isValid
       (validateFormData
          (FormData.withSearchTerms
             [TermGroup.mk None (str "TITLE-ABS-KEY") (str "OR") [[55296]]]
             (scenario2 None 50))) = true
  /\ formNumbersSafe
       (FormData.withSearchTerms
          [TermGroup.mk None (str "TITLE-ABS-KEY") (str "OR") [[55296]]]
          (scenario2 None 50)) = true
  /\ generateScopusURL
       (FormData.withSearchTerms
          [TermGroup.mk None (str "TITLE-ABS-KEY") (str "OR") [[55296]]]
          (scenario2 None 50)) = Throw URIError
  /\ generateURL (setDatabase (str "scopus") constructor)
       (FormData.withSearchTerms
          [TermGroup.mk None (str "TITLE-ABS-KEY") (str "OR") [[55296]]]
          (scenario2 None 50)) = Throw URIError.
Proof. repeat split. Qed.

(** C7. For both targets the serializer escapes the complete joined
    expression once, as one string, and the parameter assembly encodes
    the escaped string again: the value of [queryText], and the part of
    the value of [s] before the year clause, is the URL-encoding of the
    escaped expression, in which every percent sign of the first pass
    has become [%25]. *)
Theorem query_fragment_encoded_twice
  (fd : FormData.t) (qi qs : jsstring)
  (Hqi : encodeURIComponent (ieeeFullQuery (FormData.searchTerms fd)) = Ok qi)
  (Hqs : encodeURIComponent (scopusFullQuery (FormData.searchTerms fd)) = Ok qs) :
  buildIEEEQueryText (FormData.searchTerms fd) = Ok qi
  /\ generateIEEEURL fd =
     Ok (str "https://ieeexplore.ieee.org/search/searchresult.jsp"
         ++ str "?action=search&newsearch=true&matchBoolean=true&queryText="
         ++ urlencoded qi ++ str "&ranges=" ++ rangesValue fd)
  /\ buildScopusQuery (FormData.searchTerms fd) = Ok qs
  /\ generateScopusURL fd =
     Ok (str "https://www.scopus.com/results/results.uri"
         ++ str "?sort=plf-f&src=s&sot=a&sdt=a&sl=211&s="
         ++ urlencoded qs ++ str "+" ++ urlencoded (encodedYearClause fd)
         ++ str "&origin=searchadvanced&editSaveSearch=&limit="
         ++ numberToString (FormData.resultsPerPage fd))
  /\ (forall b,
        urlencoded (percentOctet b) =
        str "%25" ++ [hexDigit (N.shiftr b 4); hexDigit (N.land b 15)]).
Proof.
  split; [now rewrite buildIEEEQueryText_fullQuery|].
  split; [now apply generateIEEEURL_shape|].
  split; [now rewrite buildScopusQuery_fullQuery|].
  split; [|apply urlencoded_percentOctet].
  rewrite (generateScopusURL_shape fd qs Hqs).
  rewrite urlencoded_app_ascii
    by (eapply encodeURIComponent_ascii; eassumption).
  rewrite (urlencoded_app_ascii (str " ")) by reflexivity.
  change (urlencoded (str " ")) with (str "+").
  now rewrite <- !app_assoc.
Qed.

End Parameters.

Section Scenarios.

Import SearchURLGenerator.

Lemma query_fragment_encoded_twice_witness :
  generateIEEEURL (scenario1 None 50) =
  Ok (str "https://ieeexplore.ieee.org/search/searchresult.jsp?action=search&newsearch=true&matchBoolean=true&queryText=%28%28%2522All%2520Metadata%2522%253A%2522neural%2520decoding%2522%29%2520OR%2520%28%2522All%2520Metadata%2522%253A%2522brain%2520decoding%2522%29%29&ranges=2019_2026_Year")
  /\ generateScopusURL (scenario2 None 50) =
     Ok (str "https://www.scopus.com/results/results.uri?sort=plf-f&src=s&sot=a&sdt=a&sl=211&s=%28TITLE-ABS-KEY%28%2522neural%2520decoding%2522%29%2520OR%2520TITLE-ABS-KEY%28%2522brain%2520decoding%2522%29%29+AND%2520PUBYEAR%2520%253E%25202019%2520AND%2520PUBYEAR%2520%253C%25202027&origin=searchadvanced&editSaveSearch=&limit=50").
Proof.
  split.
  - destruct (query_fragment_encoded_twice (scenario1 None 50)
      (str "((%22All%20Metadata%22%3A%22neural%20decoding%22)%20OR%20(%22All%20Metadata%22%3A%22brain%20decoding%22))")
      (str "(All%20Metadata(%22neural%20decoding%22)%20OR%20All%20Metadata(%22brain%20decoding%22))")
      eq_refl eq_refl) as (_ & H & _).
    rewrite H. reflexivity.
  - destruct (query_fragment_encoded_twice (scenario2 None 50)
      (str "((%22TITLE-ABS-KEY%22%3A%22neural%20decoding%22)%20OR%20(%22TITLE-ABS-KEY%22%3A%22brain%20decoding%22))")
      (str "(TITLE-ABS-KEY(%22neural%20decoding%22)%20OR%20TITLE-ABS-KEY(%22brain%20decoding%22))")
      eq_refl eq_refl) as (_ & _ & _ & H & _).
    rewrite H. reflexivity.
Defined.

(** The IEEE URL whether or not the query can be escaped. *)
Lemma generateIEEEURL_parameters fd :
  generateIEEEURL fd =
  bind (encodeURIComponent (ieeeFullQuery (FormData.searchTerms fd)))
    (fun q =>
       Ok (str "https://ieeexplore.ieee.org/search/searchresult.jsp"
           ++ str "?action=search&newsearch=true&matchBoolean=true&queryText="
           ++ urlencoded q ++ str "&ranges=" ++ rangesValue fd)).
Proof.
  destruct (encodeURIComponent (ieeeFullQuery (FormData.searchTerms fd)))
    as [q|e] eqn:E.
  - now apply generateIEEEURL_shape.
  - unfold generateIEEEURL. now rewrite buildIEEEQueryText_fullQuery, E.
Qed.



(** C2, as the code has it. In scenario 1 the two atomic clauses joined
    with OR are the text of the specification, and the query before
    encoding is that text in the parentheses of its group; the URL,
    from a new generator, ends with [ranges=2019_2026_Year]. *)
Theorem scenario1_query_and_ranges (id : option jsstring) (resultsPerPage : Z) :
  join (str " OR ")
    (List.map (ieeeClause (scenarioGroup id (str "All Metadata")))
       (filter nonBlank
          (TermGroup.terms (scenarioGroup id (str "All Metadata")))))
  = scenario1Clauses
  /\ ieeeFullQuery (FormData.searchTerms (scenario1 id resultsPerPage)) =
     str "(" ++ scenario1Clauses ++ str ")"
  /\ generateURL constructor (scenario1 id resultsPerPage) =
     Ok (str "https://ieeexplore.ieee.org/search/searchresult.jsp?action=search&newsearch=true&matchBoolean=true&queryText=%28%28%2522All%2520Metadata%2522%253A%2522neural%2520decoding%2522%29%2520OR%2520%28%2522All%2520Metadata%2522%253A%2522brain%2520decoding%2522%29%29"
         ++ str "&ranges=2019_2026_Year").
Proof. repeat split. Qed.

(** C2, as the specification has it, fails: the query before encoding
    is not the bare text of the scenario. *)
Lemma scenario1_query_is_parenthesised :
  ieeeFullQuery (FormData.searchTerms (scenario1 None 50)) <> scenario1Clauses.
Proof. intros H. vm_compute in H. discriminate H. Qed.

End Scenarios.

(* ================================================================== *)
(** * Validation                                                       *)
(* ================================================================== *)

Section ValidationRules.

Import SearchURLGenerator.

Lemma nonBlank_spec term : nonBlank term = true <-> trim term <> [].
Proof.
  unfold nonBlank. rewrite negb_true_iff.
  destruct (streq (trim term) []) eqn:E.
  - apply streq_spec in E. split; [discriminate | congruence].
  - split; [|reflexivity]. intros _ H. rewrite H in E. discriminate.
Qed.

Lemma hasValidTerms_spec fd :
  existsb (fun group => existsb nonBlank (TermGroup.terms group))
    (FormData.searchTerms fd) = true <-> hasContent fd.
Proof.
  unfold hasContent. rewrite existsb_exists. split.
  - intros (group & Hg & H). apply existsb_exists in H as (term & Ht & H).
    exists group, term. now rewrite <- nonBlank_spec.
  - intros (group & term & Hg & Ht & H). exists group. split; [assumption|].
    apply existsb_exists. exists term. now rewrite nonBlank_spec.
Qed.

(** The reduction over the groups counts the non-blank terms. *)
Lemma totalTerms_spec (l : list TermGroup.t) (total : nat) :
  fold_left
    (fun total group =>
       (total + List.length (filter nonBlank (TermGroup.terms group)))%nat)
    l total
  = (total
     + List.length
         (flat_map (fun group => filter nonBlank (TermGroup.terms group)) l))%nat.
Proof.
  revert total. induction l as [|group l IH]; intros total; cbn [fold_left flat_map].
  - cbn. lia.
  - rewrite IH, length_app. lia.
Qed.

(** C6. [validateFormData] checks its four rules independently of one
    another. The error list holds, in this order, the message that a
    search term is required exactly when no group has a term that is
    not blank once trimmed, and the message about the order of the
    years exactly when the start year is greater than the end year. The
    warning list holds the message about the year range exactly when
    the start year is below 1900 or the end year above 2030, and the
    message about long URLs exactly when there are more than 20
    non-blank terms. The form is valid exactly when the error list is
    empty, that is when it has a term and its years are in order,
    whatever the warnings. *)
Theorem validateFormData_rules (fd : FormData.t) :
  exists noTerms badOrder oddYears manyTerms : bool,
    Validation.errors (validateFormData fd) =
      (if noTerms then [errorNoTerms] else [])
      ++ (if badOrder then [errorYearOrder] else [])
    /\ Validation.warnings (validateFormData fd) =
      (if oddYears then [warningYearRange] else [])
      ++ (if manyTerms then [warningManyTerms] else [])
    /\ (noTerms = true <-> ~ hasContent fd)
    /\ (badOrder = true <-> (FormData.startYear fd > FormData.endYear fd)%Z)
    /\ (oddYears = true <->
        (FormData.startYear fd < 1900)%Z \/ (FormData.endYear fd > 2030)%Z)
    /\ (manyTerms = true <-> (20 < List.length (nonBlankTerms fd))%nat)
    /\ (Validation.isValid (validateFormData fd) = true <->
        Validation.errors (validateFormData fd) = [])
    /\ (Validation.isValid (validateFormData fd) = true <->
        hasContent fd /\ (FormData.startYear fd <= FormData.endYear fd)%Z).
Proof.
  exists (negb (existsb (fun group => existsb nonBlank (TermGroup.terms group))
                  (FormData.searchTerms fd))),
         (FormData.startYear fd >? FormData.endYear fd)%Z,
         ((FormData.startYear fd <? 1900)%Z || (FormData.endYear fd >? 2030)%Z),
         (20 <? List.length (nonBlankTerms fd))%nat.
  unfold validateFormData. cbv zeta.
  cbn [Validation.errors Validation.warnings Validation.isValid].
  rewrite totalTerms_spec. cbn [Nat.add]. fold (nonBlankTerms fd).
  pose proof (hasValidTerms_spec fd) as Hc.
  destruct (existsb _ (FormData.searchTerms fd)) eqn:E; cbn [negb].
  - assert (hasContent fd) as H by now apply Hc.
    repeat split; try reflexivity; try discriminate; try tauto;
      rewrite ?Z.gtb_ltb, ?orb_true_iff, ?Z.ltb_lt, ?Nat.ltb_lt in *;
      try lia; try tauto.
    + destruct (FormData.endYear fd <? FormData.startYear fd)%Z;
        [discriminate | reflexivity].
    + destruct (FormData.endYear fd <? FormData.startYear fd)%Z;
        [discriminate | reflexivity].
    + destruct (Z.ltb_spec (FormData.endYear fd) (FormData.startYear fd));
        [discriminate | lia].
    + intros [_ Hle].
      destruct (Z.ltb_spec (FormData.endYear fd) (FormData.startYear fd));
        [lia | reflexivity].
  - assert (~ hasContent fd) as H
      by (intros Hh; apply Hc in Hh; discriminate).
    repeat split; try reflexivity; try discriminate; try tauto;
      rewrite ?Z.gtb_ltb, ?orb_true_iff, ?Z.ltb_lt, ?Nat.ltb_lt in *;
      try lia; try tauto.
Qed.

End ValidationRules.

(* ================================================================== *)
(** * Changing the database in the UI                                  *)
(* ================================================================== *)

Section DatabaseChange.

Import SearchURLGenerator.

Lemma updateFieldOptions_searchTerms database ui :
  FormData.searchTerms (UIManager.formData (UIManager.updateFieldOptions database ui))
  = FormData.searchTerms (UIManager.formData ui).
Proof.
  unfold UIManager.updateFieldOptions.
  destruct (UIManager.searchGenerator ui); [|reflexivity].
  generalize (getFieldOptions database) as options. intros options.
  revert ui. induction options as [|option options IH]; intros ui;
    cbn [fold_left]; [reflexivity|].
  rewrite IH. now destruct (_ || _).
Qed.

(** [handleDatabaseChange] never touches the term groups: every group
    keeps the search field it had. *)
Lemma handleDatabaseChange_searchTerms database ui :
  FormData.searchTerms
    (UIManager.formData (UIManager.handleDatabaseChange database ui))
  = FormData.searchTerms (UIManager.formData ui).
Proof.
  unfold UIManager.handleDatabaseChange. cbv zeta.
  rewrite updateFieldOptions_searchTerms.
  now destruct (UIManager.searchGenerator _).
Qed.

(** After [handleDatabaseChange] the generator and the form agree on
    the database. *)
Lemma handleDatabaseChange_sync database ui generator :
  UIManager.searchGenerator ui = Some generator ->
  exists generator',
    UIManager.searchGenerator (UIManager.handleDatabaseChange database ui)
    = Some generator'
    /\ currentDatabase generator' = database
    /\ FormData.database
         (UIManager.formData (UIManager.handleDatabaseChange database ui))
       = database.
Proof.
  intros Hg. unfold UIManager.handleDatabaseChange. cbv zeta.
  cbn [UIManager.withFormData UIManager.searchGenerator UIManager.formData
       UIManager.termGroupCounter]. rewrite Hg.
  unfold UIManager.updateFieldOptions. cbn [UIManager.searchGenerator].
  generalize (getFieldOptions database) as options. intros options.
  match goal with |- context [fold_left ?f options ?u0] =>
    assert (H : forall l u,
      UIManager.searchGenerator (fold_left f l u) = UIManager.searchGenerator u
      /\ FormData.database (UIManager.formData (fold_left f l u))
         = FormData.database (UIManager.formData u))
  end.
  { induction l as [|o l IH]; intros u; cbn [fold_left]; [now split|].
    destruct (IH (if (streq (FieldOption.value o) (str "All Metadata")
                      || streq (FieldOption.value o) (str "TITLE-ABS-KEY"))%bool
                  then UIManager.withFormData
                         (FormData.withSearchField (FieldOption.value o)
                            (UIManager.formData u)) u
                  else u)) as [-> ->].
    now destruct (_ || _). }
  eexists. rewrite (proj1 (H _ _)), (proj2 (H _ _)).
  cbn. repeat split.
Qed.

(** C3 at the start of the application: the form has one group, with
    the field [All Metadata]. A click on the Scopus tab sets the
    generator, the form's database and the form's field to Scopus and
    [TITLE-ABS-KEY], but the group keeps [All Metadata], so the Scopus
    URL shown asks for the field [All Metadata]. The field select's own
    handler, [handleFieldChange], does re-tag the groups; a click back
    on the IEEE tab then leaves them with [TITLE-ABS-KEY]. *)
Theorem handleDatabaseChange_keeps_group_fields :
  let ui := UIManager.handleDatabaseChange (str "scopus") uiAtStart in
  let ui' :=
    UIManager.handleDatabaseChange (str "ieee")
      (UIManager.handleFieldChange (str "TITLE-ABS-KEY") ui) in
  List.map TermGroup.searchField
    (FormData.searchTerms (UIManager.formData uiAtStart)) = [str "All Metadata"]
  /\ UIManager.searchGenerator ui = Some (mk (str "scopus"))
  /\ FormData.database (UIManager.formData ui) = str "scopus"
  /\ FormData.searchField (UIManager.formData ui) = str "TITLE-ABS-KEY"
  /\ List.map TermGroup.searchField
       (FormData.searchTerms (UIManager.formData ui)) = [str "All Metadata"]
  /\ UIManager.urlPreview ui =
     Some (inr (Ok (str "https://www.scopus.com/results/results.uri?sort=plf-f&src=s&sot=a&sdt=a&sl=211&s=%28All%2520Metadata%28%2522neural%2520decoding%2522%29%2520OR%2520All%2520Metadata%28%2522brain%2520decoding%2522%29%29+AND%2520PUBYEAR%2520%253E%25202020%2520AND%2520PUBYEAR%2520%253C%25202025&origin=searchadvanced&editSaveSearch=&limit=50")))
  /\ List.map TermGroup.searchField
       (FormData.searchTerms
          (UIManager.formData
             (UIManager.handleFieldChange (str "TITLE-ABS-KEY") ui)))
     = [str "TITLE-ABS-KEY"]
  /\ FormData.searchField (UIManager.formData ui') = str "All Metadata"
  /\ List.map TermGroup.searchField
       (FormData.searchTerms (UIManager.formData ui')) = [str "TITLE-ABS-KEY"].
Proof. vm_compute. repeat split. Qed.

End DatabaseChange.

(* ================================================================== *)
(** * No exception and a complete URL                                  *)
(* ================================================================== *)

Section Totality.

Import SearchURLGenerator.
Local Open Scope N_scope.

Lemma urlSafe_valueChar c : isUrlSafe c = true -> isValueChar c = true.
Proof. code_units. Qed.

Lemma urlencodedByte_valueChars b :
  forallb isValueChar (urlencodedByte b) = true.
Proof.
  unfold urlencodedByte. fold (isUrlSafe b).
  destruct (b =? 32); [reflexivity|].
  destruct (isUrlSafe b) eqn:E.
  - cbn. now rewrite urlSafe_valueChar.
  - cbn. now rewrite !urlSafe_valueChar by apply hexDigit_urlSafe.
Qed.

(** A serialized value has no character that would end it or split it. *)
Lemma urlencoded_valueChars s : forallb isValueChar (urlencoded s) = true.
Proof.
  unfold urlencoded. induction (utf8Encode s) as [|b l IH]; [reflexivity|].
  cbn [flat_map]. now rewrite forallb_app, urlencodedByte_valueChars.
Qed.

Lemma ieeeClause_wellFormed group term :
  isWellFormed (TermGroup.searchField group) = true ->
  isWellFormed term = true ->
  isWellFormed (ieeeClause group term) = true.
Proof.
  intros Hf Ht. unfold ieeeClause.
  repeat apply isWellFormed_app; trivial. now apply isWellFormed_trim.
Qed.

Lemma scopusClause_wellFormed group term :
  isWellFormed (TermGroup.searchField group) = true ->
  isWellFormed term = true ->
  isWellFormed (scopusClause group term) = true.
Proof.
  intros Hf Ht. unfold scopusClause.
  repeat apply isWellFormed_app; trivial. now apply isWellFormed_trim.
Qed.

(** Without a non-blank term no group leaves a text behind. *)
Lemma termGroups_no_content clause (l : list TermGroup.t) :
  existsb (fun group => existsb nonBlank (TermGroup.terms group)) l = false ->
  termGroupsOf clause l = [].
Proof.
  unfold termGroupsOf.
  induction l as [|group l IH]; [reflexivity|].
  cbn [existsb]. rewrite orb_false_iff. intros [Hg Hl].
  cbn [List.map filter].
  rewrite groupText_blank by now apply filter_nonBlank_all_blank.
  cbn. auto.
Qed.

Lemma ieeeFullQuery_wellFormed fd :
  formWellFormed fd = true ->
  isWellFormed (ieeeFullQuery (FormData.searchTerms fd)) = true.
Proof.
  intros Hwf. unfold ieeeFullQuery. rewrite ieeeTermGroups_unfold.
  apply fullQuery_wellFormed; [apply ieeeClause_wellFormed | exact Hwf].
Qed.

Lemma ieee_complete_url_of_query fd :
  isWellFormed (ieeeFullQuery (FormData.searchTerms fd)) = true ->
  exists q,
    generateIEEEURL fd = Ok (ieeeBaseURL ++ str "?" ++ q)
    /\ isQueryString ieeeParameterNames q.
Proof.
  intros Hwf.
  destruct (encodeURIComponent_wellFormed _ Hwf) as [e He].
  rewrite (generateIEEEURL_shape fd e He).
  eexists. split; [reflexivity|].
  exists [str "search"; str "true"; str "true"; urlencoded e; rangesValue fd].
  split; [reflexivity|]. split; [|reflexivity].
  repeat constructor.
  - apply urlencoded_valueChars.
  - generalize (rangesValue_urlSafe fd). apply forallb_impl, urlSafe_valueChar.
Qed.

Lemma ieee_complete_url fd :
  formWellFormed fd = true ->
  exists q,
    generateIEEEURL fd = Ok (ieeeBaseURL ++ str "?" ++ q)
    /\ isQueryString ieeeParameterNames q.
Proof.
  intros Hwf. now apply ieee_complete_url_of_query, ieeeFullQuery_wellFormed.
Qed.

Lemma scopus_complete_url_of_query fd :
  isWellFormed (scopusFullQuery (FormData.searchTerms fd)) = true ->
  exists q,
    generateScopusURL fd = Ok (scopusBaseURL ++ str "?" ++ q)
    /\ isQueryString scopusParameterNames q.
Proof.
  intros Hwf.
  destruct (encodeURIComponent_wellFormed _ Hwf) as [e He].
  rewrite (generateScopusURL_shape fd e He).
  eexists. split; [reflexivity|].
  exists [str "plf-f"; str "s"; str "a"; str "a"; str "211";
          urlencoded (e ++ str " " ++ encodedYearClause fd);
          str "searchadvanced"; [];
          numberToString (FormData.resultsPerPage fd)].
  split; [reflexivity|]. split; [|reflexivity].
  repeat constructor.
  - apply urlencoded_valueChars.
  - generalize (numberToString_urlSafe (FormData.resultsPerPage fd)).
    apply forallb_impl, urlSafe_valueChar.
Qed.

Lemma scopus_complete_url fd :
  formWellFormed fd = true ->
  exists q,
    generateScopusURL fd = Ok (scopusBaseURL ++ str "?" ++ q)
    /\ isQueryString scopusParameterNames q.
Proof.
  intros Hwf.
  now apply scopus_complete_url_of_query, scopusFullQuery_wellFormed.
Qed.

(** The IEEE serializer throws when the query cannot be escaped. *)
Lemma generateIEEEURL_throws fd :
  isWellFormed (ieeeFullQuery (FormData.searchTerms fd)) = false ->
  generateIEEEURL fd = Throw URIError.
Proof.
  intros H. unfold generateIEEEURL.
  now rewrite buildIEEEQueryText_fullQuery,
    (encodeURIComponent_not_wellFormed _ H).
Qed.

(** C8, as the code has it. With the generator set to the target of
    the form: a target other than [ieee] and [scopus] makes
    [generateURL] throw the error "Unsupported database type". For a
    known target there is one more exception: [generateURL] throws a
    URIError exactly when the query before encoding has an unpaired
    surrogate, which it has not when every field, operator and term of
    the form is a well-formed string. In every other case
    [generateURL] returns, and what it returns is the base URL of the
    target, a question mark and a query string with every parameter of
    the target, each value free of separators. When no group has a
    non-blank term the query before encoding, and the query text the
    builder returns, are the empty string. *)
Theorem generateURL_total_or_unsupported
  (this : SearchURLGenerator.t) (fd : FormData.t)
  (Hsync : currentDatabase this = FormData.database fd) :
  (FormData.database fd <> str "ieee" ->
   FormData.database fd <> str "scopus" ->
   generateURL this fd = Throw (Error (str "Unsupported database type")))
  /\ (FormData.database fd = str "ieee" ->
      (isWellFormed (ieeeFullQuery (FormData.searchTerms fd)) = true ->
       exists q,
         generateURL this fd = Ok (ieeeBaseURL ++ str "?" ++ q)
         /\ isQueryString ieeeParameterNames q)
      /\ (isWellFormed (ieeeFullQuery (FormData.searchTerms fd)) = false ->
          generateURL this fd = Throw URIError))
  /\ (FormData.database fd = str "scopus" ->
      (isWellFormed (scopusFullQuery (FormData.searchTerms fd)) = true ->
       exists q,
         generateURL this fd = Ok (scopusBaseURL ++ str "?" ++ q)
         /\ isQueryString scopusParameterNames q)
      /\ (isWellFormed (scopusFullQuery (FormData.searchTerms fd)) = false ->
          generateURL this fd = Throw URIError))
  /\ (formWellFormed fd = true ->
      isWellFormed (ieeeFullQuery (FormData.searchTerms fd)) = true
      /\ isWellFormed (scopusFullQuery (FormData.searchTerms fd)) = true)
  /\ (~ hasContent fd ->
      ieeeFullQuery (FormData.searchTerms fd) = []
      /\ buildIEEEQueryText (FormData.searchTerms fd) = Ok []
      /\ scopusFullQuery (FormData.searchTerms fd) = []
      /\ buildScopusQuery (FormData.searchTerms fd) = Ok []).
Proof.
  split; [|split; [|split; [|split]]].
  - intros Hi Hs. apply generateURL_unsupported; congruence.
  - intros Ht. rewrite generateURL_ieee by congruence.
    split; [apply ieee_complete_url_of_query | apply generateIEEEURL_throws].
  - intros Ht. rewrite generateURL_scopus by congruence.
    split; [apply scopus_complete_url_of_query | apply generateScopusURL_throws].
  - intros Hwf.
    split; [now apply ieeeFullQuery_wellFormed
           | now apply scopusFullQuery_wellFormed].
  - intros Hno.
    assert (E : existsb (fun group => existsb nonBlank (TermGroup.terms group))
                  (FormData.searchTerms fd) = false).
    { destruct (existsb _ (FormData.searchTerms fd)) eqn:E; [|reflexivity].
      apply hasValidTerms_spec in E. contradiction. }
    rewrite buildIEEEQueryText_fullQuery, buildScopusQuery_fullQuery.
    unfold ieeeFullQuery, scopusFullQuery.
    rewrite ieeeTermGroups_unfold, scopusTermGroups_unfold.
    rewrite !termGroups_no_content by exact E.
    repeat split.
Qed.

End Totality.

Section Witnesses.

Import SearchURLGenerator.

Lemma generateURL_total_or_unsupported_witness :
  generateURL (setDatabase (str "pubmed") constructor)
    (FormData.withDatabase (str "pubmed") (scenario1 None 50))
  = Throw (Error (str "Unsupported database type"))
  /\ exists q,
       generateURL (setDatabase (str "scopus") constructor) (scenario2 None 50)
       = Ok (scopusBaseURL ++ str "?" ++ q)
       /\ isQueryString scopusParameterNames q.
Proof.
  split.
  - apply (proj1 (generateURL_total_or_unsupported
                    (setDatabase (str "pubmed") constructor)
                    (FormData.withDatabase (str "pubmed") (scenario1 None 50))
                    eq_refl));
      intros H; vm_compute in H; discriminate H.
  - apply (proj1 (proj1 (proj2 (proj2 (generateURL_total_or_unsupported
                    (setDatabase (str "scopus") constructor)
                    (scenario2 None 50) eq_refl))) eq_refl));
      reflexivity.
Defined.

(** C8, as the specification has it, fails: this form has a known
    target, the generator is set to it, [validateFormData] accepts it,
    and [generateURL] throws a URIError, its one term being a lead
    surrogate on its own. *)
Lemma generateURL_unpaired_surrogate :
  FormData.database
    (FormData.withSearchTerms
       [TermGroup.mk None (str "All Metadata") (str "OR") [[55296%N]]]
       (scenario1 None 50)) = str "ieee"
  /\ currentDatabase constructor = str "ieee"
  /\ Validation.isValid
       (validateFormData
          (FormData.withSearchTerms
             [TermGroup.mk None (str "All Metadata") (str "OR") [[55296%N]]]
             (scenario1 None 50))) = true
  /\ formWellFormed
       (FormData.withSearchTerms
          [TermGroup.mk None (str "All Metadata") (str "OR") [[55296%N]]]
          (scenario1 None 50)) = false
  /\ generateURL constructor
       (FormData.withSearchTerms
          [TermGroup.mk None (str "All Metadata") (str "OR") [[55296%N]]]
          (scenario1 None 50))
     = Throw URIError.
Proof. repeat split. Qed.

Lemma blank_terms_and_groups_ignored_witness :
  generateURL constructor
    (FormData.withSearchTerms
       ([] ++ TermGroup.withTerms [[]; str "  "; str "x"]
                (scenarioGroup None (str "All Metadata")) :: [])
       (scenario1 None 50)) =
  generateURL constructor
    (FormData.withSearchTerms
       ([] ++ TermGroup.withTerms [str "x"]
                (scenarioGroup None (str "All Metadata")) :: [])
       (scenario1 None 50))
  /\ generateURL constructor
       (FormData.withSearchTerms
          ([scenarioGroup None (str "All Metadata")]
           ++ TermGroup.mk None (str "Title") (str "AND") [[]; str " "] :: [])
          (scenario1 None 50)) =
     generateURL constructor
       (FormData.withSearchTerms
          ([scenarioGroup None (str "All Metadata")] ++ [])
          (scenario1 None 50)).
Proof.
  split.
  - exact (proj1 (blank_terms_and_groups_ignored constructor
                    (scenario1 None 50) [] []
                    (scenarioGroup None (str "All Metadata"))
                    (TermGroup.mk None (str "Title") (str "AND") [[]; str " "])
                    (str "x") eq_refl)).
  - exact (proj1 (proj2 (blank_terms_and_groups_ignored constructor
                    (scenario1 None 50)
                    [scenarioGroup None (str "All Metadata")] []
                    (scenarioGroup None (str "All Metadata"))
                    (TermGroup.mk None (str "Title") (str "AND") [[]; str " "])
                    (str "x") eq_refl))).
Defined.

End Witnesses.

(* ================================================================== *)
(** * More on the two builders                                         *)
(* ================================================================== *)

Section BuilderFacts.

Import SearchURLGenerator.

Variable clause : TermGroup.t -> jsstring -> jsstring.
Hypothesis clause_truthy : forall group term, truthy (clause group term) = true.

Lemma existsb_filter_nil {A} (p : A -> bool) (l : list A) :
  existsb p l = false <-> filter p l = [].
Proof.
  induction l as [|x l IH]; cbn; [tauto|].
  destruct (p x); cbn; [split; discriminate | exact IH].
Qed.

(** A group leaves a text behind exactly when it has a non-blank term. *)
Lemma groupText_truthy group :
  truthy (groupText clause group) = existsb nonBlank (TermGroup.terms group).
Proof.
  destruct (existsb nonBlank (TermGroup.terms group)) eqn:E.
  - rewrite groupText_nonblank; [reflexivity | assumption |].
    intros H. apply existsb_filter_nil in H. congruence.
  - rewrite groupText_blank; [reflexivity|].
    now apply existsb_filter_nil.
Qed.

Lemma termGroupsOf_truthy l :
  Forall (fun s => truthy s = true) (termGroupsOf clause l).
Proof.
  unfold termGroupsOf. apply Forall_forall. intros s Hs.
  apply filter_In in Hs as [_ Hs]. now rewrite truthy_not_empty.
Qed.

Lemma termGroupsOf_nil l :
  termGroupsOf clause l = [] <->
  existsb (fun group => existsb nonBlank (TermGroup.terms group)) l = false.
Proof.
  unfold termGroupsOf. induction l as [|group l IH]; cbn [List.map filter existsb].
  - tauto.
  - rewrite <- truthy_not_empty, groupText_truthy.
    destruct (existsb nonBlank (TermGroup.terms group)); cbn.
    + split; discriminate.
    + exact IH.
Qed.

Lemma termGroupsOf_app l l' :
  termGroupsOf clause (l ++ l') = termGroupsOf clause l ++ termGroupsOf clause l'.
Proof. unfold termGroupsOf. now rewrite map_app, filter_app. Qed.

End BuilderFacts.

Section JoinFacts.

(** Joining non-empty strings gives the empty string for no string only. *)
Lemma join_nil sep l :
  Forall (fun s => truthy s = true) l -> join sep l = [] <-> l = [].
Proof.
  intros H. split; [|now intros ->].
  destruct H as [|x l Hx Hl]; [reflexivity|].
  intros E. assert (T : truthy (join sep (x :: l)) = true)
    by now apply truthy_join.
  rewrite E in T. discriminate.
Qed.

Lemma join_app sep l l' :
  join sep (l ++ l') =
  match l, l' with
  | [], _ => join sep l'
  | _, [] => join sep l
  | _, _ => join sep l ++ sep ++ join sep l'
  end.
Proof.
  induction l as [|x l IH]; [reflexivity|].
  destruct l' as [|y l']; [now rewrite app_nil_r|].
  destruct l as [|z l]; [reflexivity|].
  change (join sep ((x :: z :: l) ++ y :: l'))
    with (x ++ sep ++ join sep ((z :: l) ++ y :: l')).
  rewrite IH.
  change (join sep (x :: z :: l)) with (x ++ sep ++ join sep (z :: l)).
  now rewrite <- !app_assoc.
Qed.

End JoinFacts.

Section QueryFacts.

Import SearchURLGenerator.

Lemma fullQuery_nil clause l :
  (forall group term, truthy (clause group term) = true) ->
  join (str " AND ") (termGroupsOf clause l) = [] <->
  existsb (fun group => existsb nonBlank (TermGroup.terms group)) l = false.
Proof.
  intros Hc. rewrite join_nil by apply termGroupsOf_truthy.
  now apply termGroupsOf_nil.
Qed.

Lemma no_content_existsb fd :
  ~ hasContent fd <->
  existsb (fun group => existsb nonBlank (TermGroup.terms group))
    (FormData.searchTerms fd) = false.
Proof.
  rewrite <- hasValidTerms_spec.
  destruct (existsb _ (FormData.searchTerms fd)); split; congruence.
Qed.

Lemma query_empty_iff_no_content_aux fd :
  ~ hasContent fd ->
  ieeeFullQuery (FormData.searchTerms fd) = []
  /\ scopusFullQuery (FormData.searchTerms fd) = [].
Proof.
  intros H. apply no_content_existsb in H.
  unfold ieeeFullQuery, scopusFullQuery.
  rewrite ieeeTermGroups_unfold, scopusTermGroups_unfold.
  split.
  - now apply (fullQuery_nil ieeeClause (FormData.searchTerms fd)
                 ieeeClause_truthy).
  - now apply (fullQuery_nil scopusClause (FormData.searchTerms fd)
                 scopusClause_truthy).
Qed.

(** X1. The query before encoding is the empty string exactly when no
    group of the form has a term that is not blank; so a form that
    [validateFormData] accepts never takes the early return of the
    builders: its query is not empty. *)
Theorem query_empty_iff_no_content (fd : FormData.t) :
  (ieeeFullQuery (FormData.searchTerms fd) = [] <-> ~ hasContent fd)
  /\ (scopusFullQuery (FormData.searchTerms fd) = [] <-> ~ hasContent fd)
  /\ (Validation.isValid (validateFormData fd) = true ->
      ieeeTermGroups (FormData.searchTerms fd) <> []
      /\ scopusTermGroups (FormData.searchTerms fd) <> []
      /\ ieeeFullQuery (FormData.searchTerms fd) <> []
      /\ scopusFullQuery (FormData.searchTerms fd) <> []).
Proof.
  assert (Hi : ieeeFullQuery (FormData.searchTerms fd) = [] <-> ~ hasContent fd).
  { unfold ieeeFullQuery. rewrite ieeeTermGroups_unfold, no_content_existsb.
    apply fullQuery_nil, ieeeClause_truthy. }
  assert (Hs : scopusFullQuery (FormData.searchTerms fd) = [] <-> ~ hasContent fd).
  { unfold scopusFullQuery. rewrite scopusTermGroups_unfold, no_content_existsb.
    apply fullQuery_nil, scopusClause_truthy. }
  split; [exact Hi|]. split; [exact Hs|].
  intros Hv.
  assert (Hc : hasContent fd).
  { apply hasValidTerms_spec. unfold validateFormData in Hv. cbv zeta in Hv.
    cbn [Validation.isValid] in Hv.
    destruct (existsb _ (FormData.searchTerms fd)); [reflexivity|].
    cbn in Hv. discriminate. }
  assert (Hqi : ieeeFullQuery (FormData.searchTerms fd) <> []) by tauto.
  assert (Hqs : scopusFullQuery (FormData.searchTerms fd) <> []) by tauto.
  repeat split; trivial.
  - intros E. apply Hqi. unfold ieeeFullQuery. now rewrite E.
  - intros E. apply Hqs. unfold scopusFullQuery. now rewrite E.
Qed.

(** The year clause after both encodings. *)
Lemma urlencoded_encodedYearClause fd :
  urlencoded (encodedYearClause fd) =
  str "AND%2520PUBYEAR%2520%253E%2520"
  ++ numberToString (FormData.startYear fd)
  ++ str "%2520AND%2520PUBYEAR%2520%253C%2520"
  ++ numberToString (FormData.endYear fd + 1).
Proof.
  unfold encodedYearClause.
  rewrite urlencoded_app_ascii by reflexivity.
  rewrite urlencoded_app_ascii by apply numberToString_ascii.
  rewrite urlencoded_app_ascii by reflexivity.
  now rewrite !urlencoded_number.
Qed.

(** X2. For a form without a non-blank term the two serializers still
    return a URL: the IEEE one with an empty [queryText], the Scopus
    one with an [s] that starts with the space before the year clause,
    so that its query begins with AND. *)
Theorem url_of_form_without_content (fd : FormData.t)
  (Hno : ~ hasContent fd) :
  generateIEEEURL fd =
  Ok (str "https://ieeexplore.ieee.org/search/searchresult.jsp"
      ++ str "?action=search&newsearch=true&matchBoolean=true&queryText="
      ++ str "&ranges=" ++ numberToString (FormData.startYear fd) ++ str "_"
      ++ numberToString (FormData.endYear fd) ++ str "_Year")
  /\ generateScopusURL fd =
     Ok (str "https://www.scopus.com/results/results.uri"
         ++ str "?sort=plf-f&src=s&sot=a&sdt=a&sl=211&s="
         ++ str "+AND%2520PUBYEAR%2520%253E%2520"
         ++ numberToString (FormData.startYear fd)
         ++ str "%2520AND%2520PUBYEAR%2520%253C%2520"
         ++ numberToString (FormData.endYear fd + 1)
         ++ str "&origin=searchadvanced&editSaveSearch=&limit="
         ++ numberToString (FormData.resultsPerPage fd)).
Proof.
  destruct (query_empty_iff_no_content_aux fd Hno) as [Hi Hs].
  split.
  - rewrite (generateIEEEURL_shape fd []) by (now rewrite Hi). reflexivity.
  - rewrite (generateScopusURL_shape fd []) by (now rewrite Hs).
    cbn [app]. rewrite (urlencoded_app_ascii (str " ")) by reflexivity.
    rewrite urlencoded_encodedYearClause.
    change (urlencoded (str " ")) with (str "+").
    now rewrite <- !app_assoc.
Qed.

End QueryFacts.

Section QueryComposition.

Import SearchURLGenerator.

Lemma url_of_form_without_content_witness :
  generateScopusURL (FormData.withSearchTerms [] (scenario2 None 25)) =
  Ok (str "https://www.scopus.com/results/results.uri?sort=plf-f&src=s&sot=a&sdt=a&sl=211&s=+AND%2520PUBYEAR%2520%253E%25202019%2520AND%2520PUBYEAR%2520%253C%25202027&origin=searchadvanced&editSaveSearch=&limit=25").
Proof.
  assert (Hno : ~ hasContent (FormData.withSearchTerms [] (scenario2 None 25))).
  { intros (group & term & Hin & _). exact Hin. }
  rewrite (proj2 (url_of_form_without_content
                    (FormData.withSearchTerms [] (scenario2 None 25)) Hno)).
  reflexivity.
Defined.

Lemma fullQuery_app clause l l' :
  join (str " AND ") (termGroupsOf clause (l ++ l')) =
  match join (str " AND ") (termGroupsOf clause l),
        join (str " AND ") (termGroupsOf clause l') with
  | [], q' => q'
  | q, [] => q
  | q, q' => q ++ str " AND " ++ q'
  end.
Proof.
  rewrite termGroupsOf_app, join_app.
  pose proof (termGroupsOf_truthy clause l) as T.
  pose proof (termGroupsOf_truthy clause l') as T'.
  destruct (termGroupsOf clause l) as [|x r]; [reflexivity|].
  assert (N : join (str " AND ") (x :: r) <> [])
    by (intros E; apply (join_nil _ _ T) in E; discriminate).
  destruct (join (str " AND ") (x :: r)) as [|c q]; [congruence|].
  destruct (termGroupsOf clause l') as [|x' r']; [reflexivity|].
  assert (N' : join (str " AND ") (x' :: r') <> [])
    by (intros E; apply (join_nil _ _ T') in E; discriminate).
  destruct (join (str " AND ") (x' :: r')) as [|c' q']; [congruence|].
  reflexivity.
Qed.

(** X3. Putting the groups of two forms one after the other joins
    their queries with AND, for both targets; a form without a query
    (no non-blank term) adds nothing, not even the AND. *)
Theorem query_of_concatenated_groups (l l' : list TermGroup.t) :
  ieeeFullQuery (l ++ l') =
    match ieeeFullQuery l, ieeeFullQuery l' with
    | [], q' => q'
    | q, [] => q
    | q, q' => q ++ str " AND " ++ q'
    end
  /\ scopusFullQuery (l ++ l') =
    match scopusFullQuery l, scopusFullQuery l' with
    | [], q' => q'
    | q, [] => q
    | q, q' => q ++ str " AND " ++ q'
    end.
Proof.
  unfold ieeeFullQuery, scopusFullQuery.
  rewrite !ieeeTermGroups_unfold, !scopusTermGroups_unfold.
  split; apply fullQuery_app.
Qed.

(** The text of a group with at most one non-blank term has no
    operator in it. *)
Lemma groupText_single clause group operator :
  (forall term,
     clause (TermGroup.mk (TermGroup.id group) (TermGroup.searchField group)
               operator (TermGroup.terms group)) term
     = clause group term) ->
  (List.length (filter nonBlank (TermGroup.terms group)) <= 1)%nat ->
  groupText clause
    (TermGroup.mk (TermGroup.id group) (TermGroup.searchField group) operator
       (TermGroup.terms group))
  = groupText clause group.
Proof.
  intros Hc Hlen. unfold groupText. cbn [TermGroup.terms TermGroup.operator].
  destruct (filter nonBlank (TermGroup.terms group)) as [|t [|t' r]].
  - reflexivity.
  - cbn [List.map join]. now rewrite Hc.
  - cbn in Hlen. lia.
Qed.

Lemma termGroupsOf_replace clause before after group group' :
  groupText clause group' = groupText clause group ->
  termGroupsOf clause (before ++ group' :: after) =
  termGroupsOf clause (before ++ group :: after).
Proof.
  intros H. unfold termGroupsOf. rewrite !map_app. cbn [List.map].
  now rewrite H.
Qed.

(** X4. The operator of a group with at most one non-blank term is not
    used: whatever it is changed to, the URL stays the same. *)
Theorem operator_of_single_term_group_unused
  (this : SearchURLGenerator.t) (fd : FormData.t)
  (before after : list TermGroup.t) (group : TermGroup.t)
  (operator : jsstring)
  (Hsingle :
     (List.length (filter nonBlank (TermGroup.terms group)) <= 1)%nat) :
  generateURL this
    (FormData.withSearchTerms
       (before
        ++ TermGroup.mk (TermGroup.id group) (TermGroup.searchField group)
             operator (TermGroup.terms group) :: after) fd)
  = generateURL this (FormData.withSearchTerms (before ++ group :: after) fd).
Proof.
  apply generateURL_termGroups;
    rewrite ?ieeeTermGroups_unfold, ?scopusTermGroups_unfold;
    apply termGroupsOf_replace, groupText_single; trivial.
Qed.

Lemma operator_of_single_term_group_unused_witness :
  generateURL constructor
    (FormData.withSearchTerms
       ([] ++ TermGroup.mk None (str "Title") (str "AND")
                [str " fMRI "; []] :: [])
       (scenario1 None 50))
  = generateURL constructor
      (FormData.withSearchTerms
         ([] ++ TermGroup.mk None (str "Title") (str "OR")
                  [str " fMRI "; []] :: [])
         (scenario1 None 50)).
Proof.
  apply (operator_of_single_term_group_unused constructor (scenario1 None 50)
           [] [] (TermGroup.mk None (str "Title") (str "OR") [str " fMRI "; []])
           (str "AND")).
  vm_compute. lia.
Defined.

End QueryComposition.

(* ================================================================== *)
(** * Trimming                                                         *)
(* ================================================================== *)

Section Trimming.

Import SearchURLGenerator.

Lemma trimStart_head s :
  trimStart s = [] \/
  exists c r, trimStart s = c :: r /\ isWhiteSpace c = false.
Proof.
  induction s as [|c s IH]; [now left|].
  cbn [trimStart]. destruct (isWhiteSpace c) eqn:E; [exact IH|].
  right. now exists c, s.
Qed.

Lemma trimEnd_unfold c s :
  trimEnd (c :: s) =
  match trimEnd s with
  | [] => if isWhiteSpace c then [] else [c]
  | r => c :: r
  end.
Proof. reflexivity. Qed.

Lemma trimEnd_idempotent s : trimEnd (trimEnd s) = trimEnd s.
Proof.
  induction s as [|c s IH]; [reflexivity|].
  rewrite trimEnd_unfold. destruct (trimEnd s) as [|x r] eqn:E.
  - destruct (isWhiteSpace c) eqn:Ec; [reflexivity|].
    cbn [trimEnd]. now rewrite Ec.
  - rewrite trimEnd_unfold, IH. reflexivity.
Qed.

Lemma trim_idempotent s : trim (trim s) = trim s.
Proof.
  unfold trim. destruct (trimStart_head s) as [E | (c & r & E & Hc)].
  - now rewrite E.
  - rewrite E, (trimEnd_cons c r Hc). cbn [trimStart]. rewrite Hc.
    rewrite <- (trimEnd_cons c r Hc). apply trimEnd_idempotent.
Qed.

Lemma nonBlank_trim term : nonBlank (trim term) = nonBlank term.
Proof. unfold nonBlank. now rewrite trim_idempotent. Qed.

Lemma groupText_trimmed clause group ts :
  (forall g g' term,
     TermGroup.searchField g = TermGroup.searchField g' ->
     clause g (trim term) = clause g' term) ->
  groupText clause (TermGroup.withTerms (List.map trim ts) group)
  = groupText clause (TermGroup.withTerms ts group).
Proof.
  intros Hc. unfold groupText.
  cbn [TermGroup.withTerms TermGroup.terms TermGroup.operator].
  rewrite filter_map_swap, map_map.
  rewrite (filter_ext _ nonBlank) by apply nonBlank_trim.
  erewrite map_ext; [reflexivity|]. intros term. now apply Hc.
Qed.

End Trimming.

(* ================================================================== *)
(** * What validation looks at                                         *)
(* ================================================================== *)

Section ValidationCount.

Import SearchURLGenerator.

Lemma existsb_nonBlank_count ts :
  existsb nonBlank ts = (0 <? List.length (filter nonBlank ts))%nat.
Proof.
  induction ts as [|t ts IH]; [reflexivity|].
  cbn [existsb filter]. destruct (nonBlank t); [reflexivity | exact IH].
Qed.

Lemma hasValidTerms_count l :
  existsb (fun group => existsb nonBlank (TermGroup.terms group)) l =
  (0 <? List.length
          (flat_map (fun group => filter nonBlank (TermGroup.terms group)) l))%nat.
Proof.
  induction l as [|group l IH]; [reflexivity|].
  cbn [existsb flat_map]. rewrite length_app, IH, existsb_nonBlank_count.
  destruct (List.length (filter nonBlank (TermGroup.terms group)));
    reflexivity.
Qed.

(** [validateFormData] depends on the form through its two years and
    the number of its non-blank terms only. *)
Lemma validateFormData_count fd fd' :
  FormData.startYear fd = FormData.startYear fd' ->
  FormData.endYear fd = FormData.endYear fd' ->
  List.length (nonBlankTerms fd) = List.length (nonBlankTerms fd') ->
  validateFormData fd = validateFormData fd'.
Proof.
  intros Hs He Hn. unfold validateFormData. cbv zeta.
  rewrite !totalTerms_spec, !hasValidTerms_count. cbn [Nat.add].
  fold (nonBlankTerms fd) (nonBlankTerms fd'). now rewrite Hs, He, Hn.
Qed.

Lemma nonBlankTerms_app fd l l' :
  nonBlankTerms (FormData.withSearchTerms (l ++ l') fd) =
  nonBlankTerms (FormData.withSearchTerms l fd)
  ++ nonBlankTerms (FormData.withSearchTerms l' fd).
Proof. unfold nonBlankTerms. cbn. apply flat_map_app. Qed.

Lemma nonBlankTerms_replace fd before after group group' :
  List.length (filter nonBlank (TermGroup.terms group')) =
  List.length (filter nonBlank (TermGroup.terms group)) ->
  List.length
    (nonBlankTerms (FormData.withSearchTerms (before ++ group' :: after) fd))
  = List.length
      (nonBlankTerms (FormData.withSearchTerms (before ++ group :: after) fd)).
Proof.
  intros H. unfold nonBlankTerms. cbn [FormData.withSearchTerms FormData.searchTerms].
  rewrite !flat_map_app. cbn [flat_map]. rewrite !length_app. lia.
Qed.

(** X5. Blanks around a term do not matter: with the terms of a group
    replaced by their trimmed forms, [generateURL] returns the same and
    [validateFormData] reports the same. *)
Theorem trimmed_terms_same_url_and_report
  (this : SearchURLGenerator.t) (fd : FormData.t)
  (before after : list TermGroup.t) (group : TermGroup.t)
  (ts : list jsstring) :
  generateURL this
    (FormData.withSearchTerms
       (before ++ TermGroup.withTerms (List.map trim ts) group :: after) fd)
  = generateURL this
      (FormData.withSearchTerms
         (before ++ TermGroup.withTerms ts group :: after) fd)
  /\ validateFormData
       (FormData.withSearchTerms
          (before ++ TermGroup.withTerms (List.map trim ts) group :: after) fd)
     = validateFormData
         (FormData.withSearchTerms
            (before ++ TermGroup.withTerms ts group :: after) fd).
Proof.
  split.
  - apply generateURL_termGroups;
      rewrite ?ieeeTermGroups_unfold, ?scopusTermGroups_unfold;
      apply termGroupsOf_replace, groupText_trimmed.
    + intros g g' term Hf. unfold ieeeClause. now rewrite trim_idempotent, Hf.
    + intros g g' term Hf. unfold scopusClause. now rewrite trim_idempotent, Hf.
  - apply validateFormData_count; try reflexivity.
    apply nonBlankTerms_replace. cbn [TermGroup.withTerms TermGroup.terms].
    rewrite filter_map_swap, length_map.
    now rewrite (filter_ext _ nonBlank) by apply nonBlank_trim.
Qed.

End ValidationCount.

(* ================================================================== *)
(** * The states the UI can reach                                      *)
(* ================================================================== *)

Section GroupIds.

Lemma ascii_of_N_of_ascii l :
  List.map ascii_of_N (List.map N_of_ascii l) = l.
Proof.
  induction l as [|a l IH]; [reflexivity|].
  cbn [List.map]. now rewrite ascii_N_embedding, IH.
Qed.

Lemma str_inj a b : str a = str b -> a = b.
Proof.
  unfold str. intros H.
  apply (f_equal (List.map ascii_of_N)) in H.
  rewrite !ascii_of_N_of_ascii in H.
  apply (f_equal string_of_list_ascii) in H.
  now rewrite !string_of_list_ascii_of_string in H.
Qed.

Lemma to_int_not_nil z :
  Z.to_int z <> Decimal.Pos Decimal.Nil /\ Z.to_int z <> Decimal.Neg Decimal.Nil.
Proof.
  destruct z as [|p|p]; cbn; split; try discriminate;
    intros [= H]; now apply (Unsigned.to_uint_nonnil p).
Qed.

(** Different integers print differently. *)
Lemma numberToString_inj z z' : numberToString z = numberToString z' -> z = z'.
Proof.
  unfold numberToString. intros H. apply str_inj in H.
  apply to_int_inj.
  destruct (to_int_not_nil z) as [H1 H2], (to_int_not_nil z') as [H1' H2'].
  pose proof (NilZero.isi (Z.to_int z) H1 H2) as E.
  pose proof (NilZero.isi (Z.to_int z') H1' H2') as E'.
  rewrite H in E. congruence.
Qed.

Lemma groupIdOf_inj k k' : groupIdOf k = groupIdOf k' -> k = k'.
Proof.
  unfold groupIdOf. intros H. apply app_inv_head in H.
  now apply numberToString_inj.
Qed.

End GroupIds.

Section GroupLists.

Import UIManager.

Lemma hasId_true groupId group :
  hasId groupId group = true <-> TermGroup.id group = Some groupId.
Proof.
  unfold hasId. destruct (TermGroup.id group) as [i|].
  - rewrite streq_spec. split; congruence.
  - split; discriminate.
Qed.

Lemma removeFound_cons groupId group rest :
  removeFound groupId (group :: rest) =
  if hasId groupId group then rest else group :: removeFound groupId rest.
Proof.
  unfold removeFound. cbn [findIndex].
  destruct (hasId groupId group); [reflexivity|].
  now destruct (findIndex groupId rest).
Qed.

Lemma removeFound_incl groupId l group :
  In group (removeFound groupId l) -> In group l.
Proof.
  induction l as [|g l IH]; [trivial|].
  rewrite removeFound_cons. destruct (hasId groupId g); cbn; intuition.
Qed.

Lemma removeTermGroup_searchTerms groupId ui :
  FormData.searchTerms (formData (removeTermGroup groupId ui)) =
  removeFound groupId (FormData.searchTerms (formData ui)).
Proof.
  unfold removeTermGroup, removeFound.
  now destruct (findIndex groupId (FormData.searchTerms (formData ui))).
Qed.

(** With pairwise different ids, removing the first group of an id
    removes every group of that id. *)
Lemma removeFound_filter groupId l :
  NoDup (List.map TermGroup.id l) ->
  removeFound groupId l = filter (fun group => negb (hasId groupId group)) l.
Proof.
  induction l as [|g l IH]; [reflexivity|].
  cbn [List.map]. intros H. inversion H as [|? ? Hnot Hnd]; subst.
  rewrite removeFound_cons. cbn [filter].
  destruct (hasId groupId g) eqn:E; cbn [negb].
  - symmetry. apply forallb_filter_id. apply forallb_forall.
    intros g' Hin. apply negb_true_iff.
    destruct (hasId groupId g') eqn:E'; [|reflexivity].
    apply hasId_true in E, E'. exfalso. apply Hnot.
    rewrite E, <- E'. now apply in_map.
  - now rewrite IH.
Qed.

Lemma changeFound_ids groupId change l :
  (forall group, TermGroup.id (change group) = TermGroup.id group) ->
  List.map TermGroup.id (changeFound groupId change l) = List.map TermGroup.id l.
Proof.
  intros Hid. induction l as [|g l IH]; [reflexivity|].
  cbn [changeFound]. destruct (hasId groupId g); cbn [List.map].
  - now rewrite Hid.
  - now rewrite IH.
Qed.

Lemma changeFound_Forall (P : TermGroup.t -> Prop) groupId change l :
  (forall group, P group -> P (change group)) ->
  Forall P l -> Forall P (changeFound groupId change l).
Proof.
  intros HP. induction 1 as [|g l Hg Hl IH]; [constructor|].
  cbn [changeFound]. destruct (hasId groupId g); constructor; auto.
Qed.

Lemma replaceTerm_length index value ts :
  List.length (replaceTerm index value ts) = List.length ts.
Proof.
  revert index. induction ts as [|t ts IH]; intros [|index]; cbn; auto.
Qed.

Lemma setTerm_length termIndex value ts :
  List.length (setTerm termIndex value ts) = List.length ts.
Proof.
  unfold setTerm. destruct (_ && _)%bool; [apply replaceTerm_length | reflexivity].
Qed.

(** ** Every handler keeps the groups well numbered *)

Lemma wellNumbered_change counter groupId change l :
  (forall group, TermGroup.id (change group) = TermGroup.id group) ->
  (forall group,
     (List.length (TermGroup.terms group)
      <= List.length (TermGroup.terms (change group)))%nat) ->
  wellNumbered counter l -> wellNumbered counter (changeFound groupId change l).
Proof.
  intros Hid Hlen (Hc & Hnd & Hall). split; [exact Hc|]. split.
  - now rewrite changeFound_ids.
  - revert Hall. apply changeFound_Forall.
    intros g [Hk Ht]. rewrite Hid. split; [exact Hk|].
    specialize (Hlen g). lia.
Qed.

Lemma wellNumbered_remove counter groupId l :
  wellNumbered counter l -> wellNumbered counter (removeFound groupId l).
Proof.
  intros (Hc & Hnd & Hall). rewrite removeFound_filter by assumption.
  split; [exact Hc|]. split.
  - clear Hall. induction l as [|g l IH]; [constructor|].
    cbn [List.map] in Hnd. inversion Hnd as [|? ? Hnot Hnd']; subst.
    cbn [filter]. destruct (negb (hasId groupId g)); [|auto].
    cbn [List.map]. constructor; [|auto].
    intros Hin. apply Hnot. apply in_map_iff in Hin as (g' & Hg' & Hin).
    apply filter_In in Hin as [Hin _]. rewrite <- Hg'. now apply in_map.
  - apply Forall_forall. intros g Hin. apply filter_In in Hin as [Hin _].
    rewrite Forall_forall in Hall. auto.
Qed.

Lemma wellNumbered_retag counter field l :
  wellNumbered counter l ->
  wellNumbered counter (List.map (TermGroup.withSearchField field) l).
Proof.
  intros (Hc & Hnd & Hall). split; [exact Hc|]. split.
  - rewrite map_map. exact Hnd.
  - apply Forall_map. revert Hall. apply Forall_impl. intros g H. exact H.
Qed.

Lemma wellNumbered_add counter field l :
  wellNumbered counter l ->
  wellNumbered (counter + 1)
    (l ++ [TermGroup.mk (Some (groupIdOf (counter + 1))) field (str "OR")
             [[]; []]]).
Proof.
  intros (Hc & Hnd & Hall). split; [lia|]. split.
  - rewrite map_app. cbn [List.map TermGroup.id].
    apply NoDup_app; [exact Hnd | repeat constructor; intros [] |].
    intros i Hin [Hi | []]. subst i.
    apply in_map_iff in Hin as (g & Hg & Hin).
    rewrite Forall_forall in Hall.
    destruct (Hall g Hin) as [(k & Hk & Hid) _].
    rewrite Hid in Hg. injection Hg as Hg. apply numberToString_inj in Hg. lia.
  - apply Forall_app. split.
    + revert Hall. apply Forall_impl. intros g [(k & Hk & Hid) Ht].
      split; [exists k; split; [lia | exact Hid] | exact Ht].
    + constructor; [|constructor]. split; [|cbn; lia].
      exists (counter + 1)%Z. split; [lia | reflexivity].
Qed.

End GroupLists.

Section Reachable.

Import UIManager.

Lemma updateFieldOptions_counter database ui :
  termGroupCounter (updateFieldOptions database ui) = termGroupCounter ui.
Proof.
  unfold updateFieldOptions.
  destruct (searchGenerator ui); [|reflexivity].
  generalize (SearchURLGenerator.getFieldOptions database) as options.
  intros options. revert ui.
  induction options as [|option options IH]; intros ui;
    cbn [fold_left]; [reflexivity|].
  rewrite IH. now destruct (_ || _)%bool.
Qed.

Lemma handleDatabaseChange_counter database ui :
  termGroupCounter (handleDatabaseChange database ui) = termGroupCounter ui.
Proof.
  unfold handleDatabaseChange. cbv zeta. rewrite updateFieldOptions_counter.
  now destruct (searchGenerator _).
Qed.

Lemma handle_inSync e ui : inSync ui -> inSync (handle e ui).
Proof.
  intros (generator & Hg & Hd).
  destruct e; cbn [handle];
    try (exists generator; split; [exact Hg | exact Hd]).
  - unfold removeTermGroup.
    destruct (findIndex _ _); exists generator; split; assumption.
  - destruct (handleDatabaseChange_sync database ui generator Hg)
      as (generator' & Hg' & Hc & Hdb).
    exists generator'. split; [exact Hg'|]. now rewrite Hc, Hdb.
  - unfold handleYearChange.
    destruct (streq _ _); exists generator; split; assumption.
  - unfold handleYearSliderChange.
    destruct (streq _ _); exists generator; split; assumption.
  - destruct firstOption as [value|]; cbn [clearForm];
      exists generator; split; assumption.
Qed.

Lemma handle_groupsWellNumbered e ui :
  groupsWellNumbered ui -> groupsWellNumbered (handle e ui).
Proof.
  unfold groupsWellNumbered. intros H.
  destruct e; cbn [handle].
  - apply wellNumbered_add, H.
  - rewrite removeTermGroup_searchTerms.
    replace (termGroupCounter (removeTermGroup groupId ui))
      with (termGroupCounter ui)
      by (unfold removeTermGroup; now destruct (findIndex _ _)).
    now apply wellNumbered_remove.
  - apply wellNumbered_change; trivial.
    intros g. cbn. rewrite length_app. lia.
  - apply wellNumbered_change; trivial.
    intros g. cbn. now rewrite setTerm_length.
  - apply wellNumbered_change; trivial.
  - now rewrite handleDatabaseChange_counter, handleDatabaseChange_searchTerms.
  - unfold handleYearChange. now destruct (streq _ _).
  - unfold handleYearSliderChange. now destruct (streq _ _).
  - apply wellNumbered_retag, H.
  - exact H.
  - destruct firstOption as [value|]; cbn [clearForm]; [|exact H].
    apply (wellNumbered_add 0 value []).
    split; [lia|]. split; constructor.
Qed.

Lemma uiAtStart_inSync : inSync uiAtStart.
Proof. eexists. split; reflexivity. Qed.

Lemma uiAtStart_groupsWellNumbered : groupsWellNumbered uiAtStart.
Proof.
  split; [cbn; lia|]. split.
  - repeat constructor. intros [].
  - repeat constructor. exists 1%Z. split; [cbn; lia | reflexivity].
Qed.

Lemma run_invariant (P : UIManager.t -> Prop) :
  (forall e ui, P ui -> P (handle e ui)) ->
  forall events ui, P ui -> P (run events ui).
Proof.
  intros Hstep events. unfold run.
  induction events as [|e events IH]; intros ui H; cbn [fold_left]; auto.
Qed.

Lemma run_inSync events : inSync (run events uiAtStart).
Proof. apply run_invariant; [apply handle_inSync | apply uiAtStart_inSync]. Qed.

Lemma run_groupsWellNumbered events : groupsWellNumbered (run events uiAtStart).
Proof.
  apply run_invariant;
    [apply handle_groupsWellNumbered | apply uiAtStart_groupsWellNumbered].
Qed.

(** X6. Whatever the user does after the application has started, the
    generator stays attached and set to the database of the form: only
    [handleDatabaseChange] changes either, and it changes both. *)
Theorem generator_follows_form_database (events : list event) :
  inSync (run events uiAtStart).
Proof. apply run_inSync. Qed.

(** X7. Whatever the user does after the application has started, the
    term groups have pairwise different ids, each the id that
    [addTermGroup] gave it at a counter value between 1 and the current
    counter, and every group has at least two terms. *)
Theorem group_ids_stay_distinct (events : list event) :
  groupsWellNumbered (run events uiAtStart).
Proof. apply run_groupsWellNumbered. Qed.

(** X8. In every state the application can reach,
    [removeTermGroup(groupId)] leaves exactly the groups whose id is
    not [groupId], in their order; with an id that no group has it
    leaves all of them. *)
Theorem removeTermGroup_removes_the_group
  (events : list event) (groupId : jsstring) :
  FormData.searchTerms
    (formData (removeTermGroup groupId (run events uiAtStart)))
  = filter (fun group => negb (hasId groupId group))
      (FormData.searchTerms (formData (run events uiAtStart)))
  /\ find (hasId groupId)
       (FormData.searchTerms
          (formData (removeTermGroup groupId (run events uiAtStart))))
     = None.
Proof.
  destruct (run_groupsWellNumbered events) as (_ & Hnd & _).
  rewrite removeTermGroup_searchTerms, removeFound_filter by exact Hnd.
  split; [reflexivity|].
  induction (FormData.searchTerms (formData (run events uiAtStart)))
    as [|g l IH]; [reflexivity|].
  cbn [filter]. destruct (hasId groupId g) eqn:E; cbn [negb].
  - inversion Hnd; auto.
  - cbn [find]. rewrite E. inversion Hnd; auto.
Qed.

End Reachable.

(* ================================================================== *)
(** * The handlers of the term groups                                  *)
(* ================================================================== *)

Section TermHandlers.

Import UIManager.

Lemma hasId_change groupId change group :
  TermGroup.id (change group) = TermGroup.id group ->
  hasId groupId (change group) = hasId groupId group.
Proof. unfold hasId. now intros ->. Qed.

(** Looking a group up after it was changed in place gives the changed
    group. *)
Lemma find_changeFound groupId change l :
  (forall group, TermGroup.id (change group) = TermGroup.id group) ->
  find (hasId groupId) (changeFound groupId change l)
  = option_map change (find (hasId groupId) l).
Proof.
  intros Hid. induction l as [|g l IH]; [reflexivity|].
  cbn [changeFound find]. destruct (hasId groupId g) eqn:E; cbn [find].
  - now rewrite hasId_change, E by apply Hid.
  - now rewrite E, IH.
Qed.

Lemma changeFound_unchanged groupId change l :
  (forall group, find (hasId groupId) l = Some group -> change group = group) ->
  changeFound groupId change l = l.
Proof.
  induction l as [|g l IH]; [reflexivity|].
  cbn [changeFound find]. destruct (hasId groupId g); intros H.
  - now rewrite H.
  - now rewrite IH.
Qed.

Lemma replaceTerm_nth index value ts :
  (index < List.length ts)%nat ->
  nth_error (replaceTerm index value ts) index = Some value.
Proof.
  revert index. induction ts as [|t ts IH]; intros [|index] H; cbn in *;
    try lia; [reflexivity|]. apply IH. lia.
Qed.

Lemma replaceTerm_nth_other index value ts j :
  j <> index -> nth_error (replaceTerm index value ts) j = nth_error ts j.
Proof.
  revert index j. induction ts as [|t ts IH]; intros [|index] [|j] H; cbn;
    try reflexivity; try congruence. apply IH. congruence.
Qed.

Lemma setTerm_in_range termIndex value ts :
  (0 <= termIndex < Z.of_nat (List.length ts))%Z ->
  setTerm termIndex value ts = replaceTerm (Z.to_nat termIndex) value ts.
Proof.
  intros H. unfold setTerm.
  destruct (Z.leb_spec 0 termIndex); [|lia].
  destruct (Z.ltb_spec termIndex (Z.of_nat (List.length ts))); [reflexivity | lia].
Qed.

Lemma setTerm_out_of_range termIndex value ts :
  (termIndex < 0 \/ Z.of_nat (List.length ts) <= termIndex)%Z ->
  setTerm termIndex value ts = ts.
Proof.
  intros H. unfold setTerm.
  destruct (Z.leb_spec 0 termIndex); [|reflexivity].
  destruct (Z.ltb_spec termIndex (Z.of_nat (List.length ts))); [lia | reflexivity].
Qed.

Lemma withSearchTerms_same ui :
  withSearchTerms (FormData.searchTerms (formData ui)) ui = ui.
Proof. destruct ui as [g [d l s e f r] c]. reflexivity. Qed.

(** X9. [updateTerm(groupId, termIndex, value)] with the id of a group
    and the index of one of its terms: the group found under that id
    afterwards has [value] at that index, its other terms, its id,
    field and operator as before, and the groups have the ids they had,
    in the same order. *)
Theorem updateTerm_sets_the_term
  (ui : UIManager.t) (groupId : jsstring) (termIndex : Z) (value : jsstring)
  (group : TermGroup.t)
  (Hfind : find (hasId groupId) (FormData.searchTerms (formData ui))
           = Some group)
  (Hindex : (0 <= termIndex < Z.of_nat (List.length (TermGroup.terms group)))%Z) :
  exists group',
    find (hasId groupId)
      (FormData.searchTerms (formData (updateTerm groupId termIndex value ui)))
    = Some group'
    /\ nth_error (TermGroup.terms group') (Z.to_nat termIndex) = Some value
    /\ (forall j, j <> Z.to_nat termIndex ->
          nth_error (TermGroup.terms group') j
          = nth_error (TermGroup.terms group) j)
    /\ List.length (TermGroup.terms group')
       = List.length (TermGroup.terms group)
    /\ TermGroup.id group' = TermGroup.id group
    /\ TermGroup.searchField group' = TermGroup.searchField group
    /\ TermGroup.operator group' = TermGroup.operator group
    /\ List.map TermGroup.id
         (FormData.searchTerms
            (formData (updateTerm groupId termIndex value ui)))
       = List.map TermGroup.id (FormData.searchTerms (formData ui)).
Proof.
  eexists. unfold updateTerm.
  cbn [withSearchTerms withFormData formData FormData.withSearchTerms
       FormData.searchTerms].
  rewrite find_changeFound, Hfind by reflexivity. cbn [option_map].
  split; [reflexivity|].
  cbn [TermGroup.withTerms TermGroup.terms TermGroup.id
       TermGroup.searchField TermGroup.operator].
  rewrite setTerm_in_range by exact Hindex.
  split; [apply replaceTerm_nth; lia|].
  split; [intros j Hj; now apply replaceTerm_nth_other|].
  split; [apply replaceTerm_length|].
  repeat split. now apply changeFound_ids.
Qed.

Lemma updateTerm_sets_the_term_witness :
  exists group',
    find (hasId (str "termGroup1"))
      (FormData.searchTerms
         (formData (updateTerm (str "termGroup1") 1 (str "fMRI") uiAtStart)))
    = Some group'
    /\ TermGroup.terms group' = [str "neural decoding"; str "fMRI"].
Proof.
  destruct (updateTerm_sets_the_term uiAtStart (str "termGroup1") 1
              (str "fMRI")
              (TermGroup.mk (Some (str "termGroup1")) (str "All Metadata")
                 (str "OR") [str "neural decoding"; str "brain decoding"])
              eq_refl ltac:(cbn; lia))
    as (group' & Hfind & _).
  exists group'. split; [exact Hfind|].
  vm_compute in Hfind. injection Hfind as <-. reflexivity.
Defined.

(** X10. [updateTerm] with an id that no group has, or with an index
    that is not the index of a term of the group found, changes
    nothing. *)
Theorem updateTerm_out_of_range_changes_nothing
  (ui : UIManager.t) (groupId : jsstring) (termIndex : Z) (value : jsstring)
  (Hout :
     forall group,
       find (hasId groupId) (FormData.searchTerms (formData ui)) = Some group ->
       (termIndex < 0
        \/ Z.of_nat (List.length (TermGroup.terms group)) <= termIndex)%Z) :
  updateTerm groupId termIndex value ui = ui.
Proof.
  unfold updateTerm. rewrite changeFound_unchanged.
  - apply withSearchTerms_same.
  - intros group Hfind. rewrite setTerm_out_of_range by now apply Hout.
    now destruct group.
Qed.

Lemma updateTerm_out_of_range_changes_nothing_witness :
  updateTerm (str "termGroup1") 2 (str "fMRI") uiAtStart = uiAtStart
  /\ updateTerm (str "termGroup1") (-1) (str "fMRI") uiAtStart = uiAtStart
  /\ updateTerm (str "termGroup7") 0 (str "fMRI") uiAtStart = uiAtStart.
Proof.
  split; [|split];
    apply updateTerm_out_of_range_changes_nothing;
    intros group H; vm_compute in H; try discriminate H;
    injection H as <-; cbn; lia.
Defined.

End TermHandlers.

(* ================================================================== *)
(** * What the preview shows after a handler                           *)
(* ================================================================== *)

Section Preview.

Import UIManager.
Import SearchURLGenerator.

Lemma FormData_withSearchTerms_same fd :
  FormData.withSearchTerms (FormData.searchTerms fd) fd = fd.
Proof. now destruct fd. Qed.

(** The preview depends on the term groups through what the builders
    make of them and through the number of non-blank terms. *)
Lemma urlPreview_groups ui l :
  termGroupsOf ieeeClause l
  = termGroupsOf ieeeClause (FormData.searchTerms (formData ui)) ->
  termGroupsOf scopusClause l
  = termGroupsOf scopusClause (FormData.searchTerms (formData ui)) ->
  List.length (nonBlankTerms (FormData.withSearchTerms l (formData ui)))
  = List.length (nonBlankTerms (formData ui)) ->
  urlPreview (UIManager.withSearchTerms l ui) = urlPreview ui.
Proof.
  intros Hi Hs Hn. unfold urlPreview.
  cbn [UIManager.withSearchTerms withFormData searchGenerator formData].
  destruct (searchGenerator ui) as [generator|]; [|reflexivity].
  rewrite (validateFormData_count
             (FormData.withSearchTerms l (formData ui)) (formData ui))
    by (trivial; reflexivity).
  rewrite <- (FormData_withSearchTerms_same (formData ui)) at 4.
  rewrite (generateURL_termGroups generator (formData ui) l
             (FormData.searchTerms (formData ui)))
    by (rewrite ?ieeeTermGroups_unfold, ?scopusTermGroups_unfold; assumption).
  reflexivity.
Qed.

Lemma termGroupsOf_changeFound clause groupId change l :
  (forall group, groupText clause (change group) = groupText clause group) ->
  termGroupsOf clause (changeFound groupId change l) = termGroupsOf clause l.
Proof.
  intros H. unfold termGroupsOf. f_equal.
  induction l as [|g l IH]; [reflexivity|].
  cbn [changeFound]. destruct (hasId groupId g); cbn [List.map].
  - now rewrite H.
  - now rewrite IH.
Qed.

Lemma nonBlankTerms_changeFound fd groupId change l :
  (forall group,
     filter nonBlank (TermGroup.terms (change group))
     = filter nonBlank (TermGroup.terms group)) ->
  nonBlankTerms (FormData.withSearchTerms (changeFound groupId change l) fd)
  = nonBlankTerms (FormData.withSearchTerms l fd).
Proof.
  intros H. unfold nonBlankTerms.
  cbn [FormData.withSearchTerms FormData.searchTerms].
  induction l as [|g l IH]; [reflexivity|].
  cbn [changeFound]. destruct (hasId groupId g); cbn [flat_map].
  - now rewrite H.
  - now rewrite IH.
Qed.

Lemma groupText_pushed_blank clause group :
  (forall g term,
     TermGroup.searchField g = TermGroup.searchField group ->
     clause g term = clause group term) ->
  groupText clause
    (TermGroup.withTerms (TermGroup.terms group ++ [[]]) group)
  = groupText clause group.
Proof.
  intros Hc. unfold groupText.
  cbn [TermGroup.withTerms TermGroup.terms TermGroup.operator].
  rewrite filter_app. cbn [filter]. rewrite nonBlank_empty, app_nil_r.
  erewrite map_ext; [reflexivity|]. intros term. now apply Hc.
Qed.

(** X11. An empty term or an empty group changes nothing that is
    shown: after [addTermGroup] and after [addTermToGroup] the preview
    is computed to the same errors, the same URL or the same
    exception as before. *)
Theorem blank_additions_keep_the_preview
  (ui : UIManager.t) (groupId : jsstring) :
  urlPreview (addTermGroup ui) = urlPreview ui
  /\ urlPreview (addTermToGroup groupId ui) = urlPreview ui.
Proof.
  split.
  - transitivity
      (urlPreview
         (UIManager.withSearchTerms
            (FormData.searchTerms (formData ui)
             ++ [TermGroup.mk
                   (Some (str "termGroup"
                          ++ numberToString (termGroupCounter ui + 1)))
                   (FormData.searchField (formData ui)) (str "OR") [[]; []]])
            ui)); [reflexivity|].
    apply urlPreview_groups.
    + rewrite termGroupsOf_app. cbn. apply app_nil_r.
    + rewrite termGroupsOf_app. cbn. apply app_nil_r.
    + rewrite nonBlankTerms_app, length_app. cbn [List.length].
      rewrite FormData_withSearchTerms_same. cbn. lia.
  - unfold addTermToGroup. apply urlPreview_groups.
    + apply termGroupsOf_changeFound. intros g.
      apply groupText_pushed_blank. intros g' term Hf.
      unfold ieeeClause. now rewrite Hf.
    + apply termGroupsOf_changeFound. intros g.
      apply groupText_pushed_blank. intros g' term Hf.
      unfold scopusClause. now rewrite Hf.
    + rewrite nonBlankTerms_changeFound.
      * now rewrite FormData_withSearchTerms_same.
      * intros g. cbn [TermGroup.withTerms TermGroup.terms].
        rewrite filter_app. cbn [filter]. rewrite nonBlank_empty.
        apply app_nil_r.
Qed.

(** X12. [handleDatabaseChange] with a generator attached sets the
    field of the form to [All Metadata] for [ieee], to [TITLE-ABS-KEY]
    for [scopus], and leaves it as it is for every other database, for
    which there is no option; without a generator it leaves the field
    as it is for every database. *)
Theorem handleDatabaseChange_field (ui : UIManager.t) (database : jsstring) :
  FormData.searchField (formData (handleDatabaseChange database ui)) =
  match searchGenerator ui with
  | Some _ =>
      if streq database (str "ieee") then str "All Metadata"
      else if streq database (str "scopus") then str "TITLE-ABS-KEY"
      else FormData.searchField (formData ui)
  | None => FormData.searchField (formData ui)
  end.
Proof.
  destruct ui as [[generator|] fd counter]; [|reflexivity].
  unfold handleDatabaseChange, updateFieldOptions. cbv zeta.
  cbn [withFormData searchGenerator formData termGroupCounter].
  unfold getFieldOptions.
  destruct (streq database (str "ieee")); [reflexivity|].
  destruct (streq database (str "scopus")); reflexivity.
Qed.

(** X13. [clearForm], when the field select has a first option: the
    database of the form is kept, the form has one group, with that
    option as its field, and with a generator attached the preview is
    the one message that a search term is required, on which both the
    copy and the open button only notify. When the field select has no
    option, [clearForm] throws before it assigns anything. *)
Theorem clearForm_shows_term_required
  (ui : UIManager.t) (value uriErrorMessage : jsstring) :
  clearForm None ui = None
  /\ exists ui',
       clearForm (Some value) ui = Some ui'
       /\ FormData.database (formData ui') = FormData.database (formData ui)
       /\ FormData.searchTerms (formData ui') =
          [TermGroup.mk (Some (str "termGroup1")) value (str "OR") [[]; []]]
       /\ termGroupCounter ui' = 1%Z
       /\ urlText uriErrorMessage ui' =
          match searchGenerator ui with
          | Some _ => Some (str "At least one search term is required")
          | None => None
          end
       /\ copyURL (str "At least one search term is required")
          = Notify (str "No valid URL to copy")
       /\ openURL (str "At least one search term is required")
          = Notify (str "No valid URL to open").
Proof.
  split; [reflexivity|]. eexists. split; [reflexivity|].
  repeat split.
  unfold urlText, urlPreview. cbn [clearForm addTermGroup searchGenerator].
  now destruct (searchGenerator ui).
Qed.

End Preview.

(* ================================================================== *)
(** * The guard of the copy and open buttons                           *)
(* ================================================================== *)

Section ButtonGuard.

Import UIManager.
Import SearchURLGenerator.

Lemma validateFormData_errors fd :
  Validation.errors (validateFormData fd) =
  (if existsb (fun group => existsb nonBlank (TermGroup.terms group))
        (FormData.searchTerms fd)
   then [] else [errorNoTerms])
  ++ (if (FormData.startYear fd >? FormData.endYear fd)%Z
      then [errorYearOrder] else []).
Proof.
  unfold validateFormData. cbv zeta. cbn [Validation.errors].
  now destruct (existsb _ (FormData.searchTerms fd)).
Qed.

Lemma validateFormData_isValid fd :
  Validation.isValid (validateFormData fd) =
  existsb (fun group => existsb nonBlank (TermGroup.terms group))
    (FormData.searchTerms fd)
  && negb (FormData.startYear fd >? FormData.endYear fd)%Z.
Proof.
  unfold validateFormData. cbv zeta. cbn [Validation.isValid].
  destruct (existsb _ (FormData.searchTerms fd));
    destruct (FormData.startYear fd >? FormData.endYear fd)%Z; reflexivity.
Qed.

(** X14. When the form has a non-blank term and its start year is
    greater than its end year, the preview is the message about the
    order of the years alone, and the guard of the two buttons, which
    looks for the words Error and required, lets it through: the copy
    button writes the message to the clipboard and the open button
    opens a window on it. *)
Theorem year_order_message_passes_the_guard
  (ui : UIManager.t) (generator : SearchURLGenerator.t)
  (uriErrorMessage : jsstring)
  (Hgenerator : searchGenerator ui = Some generator)
  (Hcontent : hasContent (formData ui))
  (Hyears :
     (FormData.startYear (formData ui) > FormData.endYear (formData ui))%Z) :
  urlText uriErrorMessage ui =
    Some (str "Start year must be less than or equal to end year")
  /\ copyURL (str "Start year must be less than or equal to end year") =
     WriteToClipboard (str "Start year must be less than or equal to end year")
  /\ openURL (str "Start year must be less than or equal to end year") =
     OpenWindow (str "Start year must be less than or equal to end year").
Proof.
  split; [|split; reflexivity].
  unfold urlText, urlPreview. rewrite Hgenerator.
  rewrite validateFormData_isValid, validateFormData_errors.
  apply hasValidTerms_spec in Hcontent. rewrite Hcontent.
  replace (FormData.startYear (formData ui) >? FormData.endYear (formData ui))%Z
    with true by (symmetry; apply Z.gtb_lt; lia).
  reflexivity.
Qed.

Lemma year_order_message_passes_the_guard_witness :
  urlText (str "URI malformed") (handleYearChange (str "start") 2030 uiAtStart)
  = Some (str "Start year must be less than or equal to end year").
Proof.
  refine (proj1 (year_order_message_passes_the_guard
                   (handleYearChange (str "start") 2030 uiAtStart)
                   SearchURLGenerator.constructor (str "URI malformed")
                   eq_refl _ _)).
  - exists (scenarioGroup (Some (str "termGroup1")) (str "All Metadata")),
      (str "neural decoding").
    cbn. repeat split; auto. discriminate.
  - cbn. lia.
Defined.

(** X15. The guard does refuse the other texts that are not URLs: the
    error list of a form without a non-blank term, whether or not the
    years are in order, and the message of an exception thrown by
    [generateURL] on a form that is valid. *)
Theorem guard_refuses_term_error_and_exceptions
  (ui : UIManager.t) (uriErrorMessage text : jsstring)
  (Htext : urlText uriErrorMessage ui = Some text)
  (Hbad :
     ~ hasContent (formData ui)
     \/ exists generator e,
          searchGenerator ui = Some generator
          /\ Validation.isValid (validateFormData (formData ui)) = true
          /\ generateURL generator (formData ui) = Throw e) :
  noValidURL text = true
  /\ copyURL text = Notify (str "No valid URL to copy")
  /\ openURL text = Notify (str "No valid URL to open").
Proof.
  assert (H : noValidURL text = true).
  { unfold urlText, urlPreview in Htext.
    destruct (searchGenerator ui) as [generator|] eqn:Eg; [|discriminate].
    rewrite validateFormData_isValid, validateFormData_errors in Htext.
    destruct Hbad as [Hno | (generator' & e & Hg & Hv & He)].
    - apply no_content_existsb in Hno. rewrite Hno in Htext.
      cbn [andb negb app] in Htext.
      destruct (FormData.startYear (formData ui) >? FormData.endYear (formData ui))%Z;
        injection Htext as <-; reflexivity.
    - injection Hg as <-. rewrite validateFormData_isValid in Hv.
      rewrite Hv, He in Htext. cbn [negb] in Htext.
      injection Htext as <-. reflexivity. }
  unfold copyURL, openURL. rewrite H. repeat split.
Qed.

Lemma guard_refuses_term_error_and_exceptions_witness :
  copyURL
    (str "Error generating URL: Unsupported database type")
  = Notify (str "No valid URL to copy").
Proof.
  refine (proj1 (proj2 (guard_refuses_term_error_and_exceptions
                          (handleDatabaseChange (str "pubmed") uiAtStart)
                          (str "URI malformed")
                          (str "Error generating URL: Unsupported database type")
                          eq_refl _))).
  right. exists (SearchURLGenerator.mk (str "pubmed")).
  eexists. repeat split; reflexivity.
Defined.

End ButtonGuard.

(* ================================================================== *)
(** * Words of a term in the URL                                       *)
(* ================================================================== *)

Section Occurrences.

Import SearchURLGenerator.
Local Open Scope N_scope.

Lemma occursIn_refl w : occursIn w w.
Proof. exists [], []. now rewrite app_nil_r. Qed.

Lemma occursIn_trans w s t : occursIn w s -> occursIn s t -> occursIn w t.
Proof.
  intros (a & b & ->) (a' & b' & ->). exists (a' ++ a), (b ++ b').
  now rewrite <- !app_assoc.
Qed.

Lemma occursIn_app_r w s x : occursIn w s -> occursIn w (x ++ s).
Proof.
  intros (a & b & ->). exists (x ++ a), b. now rewrite <- app_assoc.
Qed.

Lemma occursIn_app_l w s x : occursIn w s -> occursIn w (s ++ x).
Proof.
  intros (a & b & ->). exists a, (b ++ x). now rewrite <- !app_assoc.
Qed.

Lemma occursIn_join sep x l : In x l -> occursIn x (join sep l).
Proof.
  induction l as [|y l IH]; [intros []|].
  intros [-> | Hin].
  - destruct l; [apply occursIn_refl | apply occursIn_app_l, occursIn_refl].
  - destruct l as [|z l]; [destruct Hin|].
    change (join sep (y :: z :: l)) with (y ++ sep ++ join sep (z :: l)).
    now apply occursIn_app_r, occursIn_app_r, IH.
Qed.

Lemma startsWith_app w s : startsWith w (w ++ s) = true.
Proof.
  induction w as [|c w IH]; [reflexivity|].
  cbn. now rewrite N.eqb_refl, IH.
Qed.

(** A word that occurs in a string is found by [includes]. *)
Lemma includes_occursIn s w : occursIn w s -> includes s w = true.
Proof.
  intros (a & b & ->). induction a as [|c a IH].
  - cbn [app]. destruct (w ++ b) eqn:E; cbn [includes];
      rewrite <- E, startsWith_app; reflexivity.
  - cbn [app includes]. rewrite IH. apply orb_true_r.
Qed.

(** ** Through [encodeURIComponent] *)

Lemma encodeURIComponent_unescaped_app w s :
  forallb uriUnescaped w = true ->
  encodeURIComponent (w ++ s) =
  bind (encodeURIComponent s) (fun y => Ok (w ++ y)).
Proof.
  intros H. rewrite encodeURIComponent_app_ascii
    by (revert H; apply forallb_impl, unescaped_ascii).
  now rewrite encodeURIComponent_unescaped.
Qed.

(** Escaping a string escapes what is before and what is after a
    position that does not cut a surrogate pair. *)
Lemma encodeURIComponent_split a b e :
  match b with
  | c :: _ => isTrailSurrogate c = false
  | [] => True
  end ->
  encodeURIComponent (a ++ b) = Ok e ->
  exists ea eb,
    encodeURIComponent a = Ok ea /\ encodeURIComponent b = Ok eb
    /\ e = ea ++ eb.
Proof.
  intros Hb. revert e.
  induction a as [|c a IH IH2] using list_ind_pair; intros e.
  - cbn [app]. intros H. now exists [], e.
  - cbn [app encodeURIComponent].
    destruct (uriUnescaped c).
    + destruct (encodeURIComponent (a ++ b)) as [r|] eqn:E; [|discriminate].
      cbn [bind]. intros [= <-].
      destruct (IH r eq_refl) as (ea & eb & -> & Hb' & ->).
      exists (c :: ea), eb. now rewrite Hb'.
    + destruct (isLeadSurrogate c).
      * destruct a as [|d a'']; cbn [app tl] in *.
        -- destruct b as [|d b']; [discriminate|].
           rewrite Hb. discriminate.
        -- destruct (isTrailSurrogate d); [|discriminate].
           destruct (encodeURIComponent (a'' ++ b)) as [r|] eqn:E;
             [|discriminate].
           cbn [bind]. intros [= <-].
           destruct (IH2 r eq_refl) as (ea & eb & -> & Hb' & ->).
           eexists _, eb. rewrite Hb'. cbn [bind].
           split; [reflexivity|]. split; [reflexivity|].
           now rewrite app_assoc.
      * destruct (isTrailSurrogate c); [discriminate|].
        destruct (encodeURIComponent (a ++ b)) as [r|] eqn:E; [|discriminate].
        cbn [bind]. intros [= <-].
        destruct (IH r eq_refl) as (ea & eb & -> & Hb' & ->).
        eexists _, eb. rewrite Hb'. cbn [bind].
        split; [reflexivity|]. split; [reflexivity|].
        now rewrite app_assoc.
Qed.

(** A word of unescaped characters occurs in the escaped string where
    it occurred in the string. *)
Lemma occursIn_encodeURIComponent w s e :
  forallb uriUnescaped w = true ->
  occursIn w s -> encodeURIComponent s = Ok e -> occursIn w e.
Proof.
  intros Hw (a & b & ->) He.
  destruct w as [|c w]; [exists [], e; reflexivity|].
  apply encodeURIComponent_split in He.
  - destruct He as (ea & eb & _ & Hwb & ->).
    rewrite encodeURIComponent_unescaped_app in Hwb by exact Hw.
    destruct (encodeURIComponent b) as [y|]; [|discriminate].
    cbn [bind] in Hwb. injection Hwb as <-.
    now exists ea, y.
  - cbn [app]. cbn [forallb] in Hw. apply andb_true_iff in Hw as [Hc _].
    now destruct (ascii_not_surrogate c (unescaped_ascii c Hc)) as (_ & -> & _).
Qed.

(** ** Through the URL-encoded serializer *)

Lemma occursIn_urlencoded w e :
  forallb isUrlSafe w = true -> forallb isAscii e = true ->
  occursIn w e -> occursIn w (urlencoded e).
Proof.
  intros Hw He (a & b & ->).
  rewrite !forallb_app in He.
  apply andb_true_iff in He as [Ha He]. apply andb_true_iff in He as [Hwa Hb].
  rewrite urlencoded_app_ascii, urlencoded_app_ascii by assumption.
  rewrite (urlencoded_safe w) by exact Hw.
  now exists (urlencoded a), (urlencoded b).
Qed.

(** ** From a term to the query *)

Variable clause : TermGroup.t -> jsstring -> jsstring.
Hypothesis clause_truthy : forall group term, truthy (clause group term) = true.
Hypothesis clause_term :
  forall group term, occursIn (trim term) (clause group term).

Lemma occursIn_fullQuery l group term :
  In group l -> In term (TermGroup.terms group) -> nonBlank term = true ->
  occursIn (trim term) (join (str " AND ") (termGroupsOf clause l)).
Proof.
  intros Hg Ht Hn.
  assert (Hf : In term (filter nonBlank (TermGroup.terms group)))
    by now apply filter_In.
  apply occursIn_trans with (groupText clause group).
  - rewrite groupText_nonblank; [|exact clause_truthy|].
    + apply occursIn_app_r, occursIn_app_l.
      apply occursIn_trans with (clause group term); [apply clause_term|].
      apply occursIn_join. now apply in_map.
    + intros E. rewrite E in Hf. destruct Hf.
  - apply occursIn_join. unfold termGroupsOf. apply filter_In. split.
    + now apply in_map.
    + rewrite <- truthy_not_empty, (groupText_truthy clause clause_truthy).
      apply existsb_exists. now exists term.
Qed.

End Occurrences.

Section RefusedURLs.

Import UIManager.
Import SearchURLGenerator.

Lemma ieeeClause_term group term : occursIn (trim term) (ieeeClause group term).
Proof.
  unfold ieeeClause.
  exists (str "(" ++ dquote ++ TermGroup.searchField group ++ dquote
          ++ str ":" ++ dquote), (dquote ++ str ")").
  now rewrite <- !app_assoc.
Qed.

Lemma scopusClause_term group term :
  occursIn (trim term) (scopusClause group term).
Proof.
  unfold scopusClause.
  exists (TermGroup.searchField group ++ str "(" ++ dquote),
    (dquote ++ str ")").
  now rewrite <- !app_assoc.
Qed.

Lemma Ok_inj {A} (x y : A) : Ok x = Ok y -> x = y.
Proof. now intros [= ->]. Qed.

(** A word of letters that occurs in a trimmed term occurs in the URL. *)
Lemma occursIn_url this fd url group term w :
  forallb uriUnescaped w = true -> forallb isUrlSafe w = true ->
  generateURL this fd = Ok url ->
  In group (FormData.searchTerms fd) -> In term (TermGroup.terms group) ->
  nonBlank term = true -> occursIn w (trim term) ->
  occursIn w url.
Proof.
  intros Hu Hs Hurl Hg Ht Hn Hw. unfold generateURL in Hurl.
  destruct (streq (currentDatabase this) (str "ieee")).
  - rewrite generateIEEEURL_parameters in Hurl.
    destruct (encodeURIComponent (ieeeFullQuery (FormData.searchTerms fd)))
      as [q|] eqn:E; [|discriminate].
    cbn [bind] in Hurl. apply Ok_inj in Hurl. subst url.
    do 2 apply occursIn_app_r. apply occursIn_app_l.
    apply occursIn_urlencoded; trivial.
    + now apply (encodeURIComponent_ascii _ _ E).
    + eapply occursIn_encodeURIComponent; [exact Hu| |exact E].
      apply occursIn_trans with (trim term); [exact Hw|].
      unfold ieeeFullQuery. rewrite ieeeTermGroups_unfold.
      exact (occursIn_fullQuery ieeeClause ieeeClause_truthy
               ieeeClause_term _ group term Hg Ht Hn).
  - destruct (streq (currentDatabase this) (str "scopus")); [|discriminate].
    destruct (encodeURIComponent (scopusFullQuery (FormData.searchTerms fd)))
      as [q|] eqn:E.
    + rewrite (generateScopusURL_shape fd q E) in Hurl.
      apply Ok_inj in Hurl. subst url.
      do 2 apply occursIn_app_r. apply occursIn_app_l.
      apply occursIn_urlencoded; trivial.
      * rewrite !forallb_app, (encodeURIComponent_ascii _ _ E),
          encodedYearClause_ascii. reflexivity.
      * apply occursIn_app_l.
        eapply occursIn_encodeURIComponent; [exact Hu| |exact E].
        apply occursIn_trans with (trim term); [exact Hw|].
        unfold scopusFullQuery. rewrite scopusTermGroups_unfold.
        exact (occursIn_fullQuery scopusClause scopusClause_truthy
                 scopusClause_term _ group term Hg Ht Hn).
    + unfold generateScopusURL in Hurl.
      rewrite buildScopusQuery_fullQuery, E in Hurl. discriminate.
Qed.

(** X16. A URL that [generateURL] returns for a form one of whose
    terms contains the word Error or the word required contains that
    word, so the guard of the two buttons takes it for an error
    message: the copy button and the open button only notify that
    there is no valid URL. *)
Theorem url_with_error_or_required_is_refused
  (this : SearchURLGenerator.t) (fd : FormData.t) (url : jsstring)
  (group : TermGroup.t) (term w : jsstring)
  (Hurl : generateURL this fd = Ok url)
  (Hgroup : In group (FormData.searchTerms fd))
  (Hterm : In term (TermGroup.terms group))
  (Hword : w = str "Error" \/ w = str "required")
  (Hoccurs : occursIn w (trim term)) :
  noValidURL url = true
  /\ copyURL url = Notify (str "No valid URL to copy")
  /\ openURL url = Notify (str "No valid URL to open").
Proof.
  assert (Hn : nonBlank term = true).
  { apply nonBlank_spec. intros E. destruct Hoccurs as (a & b & Hab).
    rewrite E in Hab. destruct a; [|discriminate].
    destruct Hword as [-> | ->]; discriminate. }
  assert (H : noValidURL url = true).
  { unfold noValidURL.
    destruct Hword as [-> | ->].
    - rewrite (includes_occursIn url (str "Error")).
      + now rewrite orb_true_r.
      + now apply (occursIn_url this fd url group term).
    - rewrite (includes_occursIn url (str "required")).
      + now rewrite orb_true_r.
      + now apply (occursIn_url this fd url group term). }
  unfold copyURL, openURL. rewrite H. repeat split.
Qed.

Lemma url_with_error_or_required_is_refused_witness :
  exists url,
    generateURL constructor
      (FormData.withSearchTerms
         [TermGroup.mk None (str "Title") (str "OR") [str " Error correction "]]
         (scenario1 None 50))
    = Ok url
    /\ copyURL url = Notify (str "No valid URL to copy").
Proof.
  eexists. split; [reflexivity|].
  refine (proj1 (proj2 (url_with_error_or_required_is_refused
            constructor
            (FormData.withSearchTerms
               [TermGroup.mk None (str "Title") (str "OR")
                  [str " Error correction "]]
               (scenario1 None 50))
            _
            (TermGroup.mk None (str "Title") (str "OR")
               [str " Error correction "])
            (str " Error correction ") (str "Error")
            eq_refl (or_introl eq_refl) (or_introl eq_refl)
            (or_introl eq_refl) _))).
  exists [], (str " correction"). reflexivity.
Defined.

(** X17. In every state the application can reach by events in which
    every year and page size entered is an integer, the preview is
    written. For a form that is not valid it is the error list joined
    with commas. For a valid form it is: for the database [ieee] or
    [scopus] and well-formed strings, the URL of that database, with
    all its parameters; for any other database, the text
    "Error generating URL: Unsupported database type". *)
Theorem preview_of_reachable_state
  (events : list event) (uriErrorMessage : jsstring) :
  exists text,
    urlText uriErrorMessage (run events uiAtStart) = Some text
    /\ (Validation.isValid
          (validateFormData (formData (run events uiAtStart))) = false ->
        text = join (str ", ")
                 (Validation.errors
                    (validateFormData (formData (run events uiAtStart)))))
    /\ (Validation.isValid
          (validateFormData (formData (run events uiAtStart))) = true ->
        (FormData.database (formData (run events uiAtStart)) = str "ieee" ->
         formWellFormed (formData (run events uiAtStart)) = true ->
         exists q, text = ieeeBaseURL ++ str "?" ++ q
                   /\ isQueryString ieeeParameterNames q)
        /\ (FormData.database (formData (run events uiAtStart)) = str "scopus" ->
            formWellFormed (formData (run events uiAtStart)) = true ->
            exists q, text = scopusBaseURL ++ str "?" ++ q
                      /\ isQueryString scopusParameterNames q)
        /\ (FormData.database (formData (run events uiAtStart)) <> str "ieee" ->
            FormData.database (formData (run events uiAtStart)) <> str "scopus" ->
            text = str "Error generating URL: Unsupported database type")).
Proof.
  destruct (run_inSync events) as (generator & Hg & Hd).
  set (ui := run events uiAtStart) in *.
  unfold urlText, urlPreview. rewrite Hg.
  destruct (Validation.isValid (validateFormData (formData ui))) eqn:Ev;
    cbn [negb].
  - destruct (generateURL generator (formData ui)) as [url|e] eqn:Eu;
      eexists; (split; [reflexivity|]); (split; [discriminate|]);
      intros _; repeat split.
    + intros Hdb Hwf. rewrite generateURL_ieee in Eu by congruence.
      destruct (ieee_complete_url (formData ui) Hwf) as (q & Hq & Hqs).
      exists q. split; [congruence | exact Hqs].
    + intros Hdb Hwf. rewrite generateURL_scopus in Eu by congruence.
      destruct (scopus_complete_url (formData ui) Hwf) as (q & Hq & Hqs).
      exists q. split; [congruence | exact Hqs].
    + intros H1 H2. rewrite generateURL_unsupported in Eu by congruence.
      discriminate.
    + intros Hdb Hwf. rewrite generateURL_ieee in Eu by congruence.
      destruct (ieee_complete_url (formData ui) Hwf) as (q & Hq & Hqs).
      congruence.
    + intros Hdb Hwf. rewrite generateURL_scopus in Eu by congruence.
      destruct (scopus_complete_url (formData ui) Hwf) as (q & Hq & Hqs).
      congruence.
    + intros H1 H2. rewrite generateURL_unsupported in Eu by congruence.
      injection Eu as <-. reflexivity.
  - eexists. split; [reflexivity|]. split; [reflexivity | discriminate].
Qed.

End RefusedURLs.

Section ValidationInputs.

Import SearchURLGenerator.

(** X18. [validateFormData] looks at the two years and at the number
    of non-blank terms, and at nothing else: two forms that agree on
    these get the same report, whatever their databases, fields,
    operators, page sizes and the terms themselves. *)
Theorem validation_looks_at_years_and_term_count
  (fd fd' : FormData.t)
  (Hstart : FormData.startYear fd = FormData.startYear fd')
  (Hend : FormData.endYear fd = FormData.endYear fd')
  (Hcount : List.length (nonBlankTerms fd) = List.length (nonBlankTerms fd')) :
  validateFormData fd = validateFormData fd'.
Proof. now apply validateFormData_count. Qed.

Lemma validation_looks_at_years_and_term_count_witness :
  validateFormData (scenario1 None 50) =
  validateFormData
    (FormData.mk (str "scopus")
       [TermGroup.mk None (str "ABS") (str "AND") [str "a"; []];
        TermGroup.mk None (str "KEY") (str "OR") [str " "; str "b"]]
       2019 2026 (str "TITLE") 200).
Proof.
  apply validation_looks_at_years_and_term_count; reflexivity.
Defined.

End ValidationInputs.
